(** * pyfind / pfind: a shallow embedding of the two find-like tools

    [src/project/pyfind.py] is a single-file clone of Unix find with an
    expression parser, a predicate tree and a traversal driver;
    [src/src/pfind.py] is a smaller tool with three filters.  Both are
    embedded below as executable Rocq functions, Python's exceptions being
    an explicit [outcome], the interpreter's builtins ([int], [str.strip],
    [os.walk], ...) small executable models of their documented behaviour
    on ASCII text, and the operating system (glob matching, the user
    database, the clock, the directory tree) a record of the values the
    program reads from it. *)

From Stdlib Require Import ZArith List String Ascii Bool Arith Lia.
Import ListNotations.

Local Open Scope string_scope.
Local Open Scope Z_scope.

(** ** Python values and builtins *)

Module Py.

(** The exceptions the two programs can raise. *)
Inductive exn : Type :=
| IndexError
| ValueError
| KeyError
| TypeError
| OSError.

(** What a call does: return a value, raise, or leave through
    [sys.exit(code)]. *)
Inductive outcome (A : Type) : Type :=
| Ok (a : A)
| Raise (e : exn)
| SysExit (code : Z).

Arguments Ok {A} a.
Arguments Raise {A} e.
Arguments SysExit {A} code.

Definition bind {A B : Type} (m : outcome A) (k : A -> outcome B) : outcome B :=
  match m with
  | Ok a => k a
  | Raise e => Raise e
  | SysExit c => SysExit c
  end.

Definition is_digit (c : ascii) : bool :=
  ((48 <=? nat_of_ascii c) && (nat_of_ascii c <=? 57))%nat.

Definition digit_value (c : ascii) : Z :=
  Z.of_nat (nat_of_ascii c) - 48.

(** The white space [int] skips around the literal of an ASCII string:
    tab, line feed, vertical tab, form feed, carriage return and space. *)
Definition is_space (c : ascii) : bool :=
  let n := nat_of_ascii c in
  (((9 <=? n) && (n <=? 13)) || (n =? 32))%nat.

Fixpoint lstrip (s : string) : string :=
  match s with
  | String c r => if is_space c then lstrip r else s
  | EmptyString => EmptyString
  end.

Fixpoint rstrip (s : string) : string :=
  match s with
  | String c r =>
      match rstrip r with
      | EmptyString => if is_space c then EmptyString else String c EmptyString
      | r' => String c r'
      end
  | EmptyString => EmptyString
  end.

Definition strip (s : string) : string := rstrip (lstrip s).

(** [s.lstrip(chars)]: drop leading characters that occur in [chars]. *)
Fixpoint mem_ascii (c : ascii) (chars : string) : bool :=
  match chars with
  | String d r => Ascii.eqb c d || mem_ascii c r
  | EmptyString => false
  end.

Fixpoint lstrip_chars (chars s : string) : string :=
  match s with
  | String c r => if mem_ascii c chars then lstrip_chars chars r else s
  | EmptyString => EmptyString
  end.

(** The digits of an integer literal after its sign: decimal digits, with
    single underscores allowed between two digits.  [acc] is the value read
    so far, [prev] tells whether the previous character was a digit. *)
Fixpoint int_digits (acc : Z) (prev : bool) (s : string) : option Z :=
  match s with
  | EmptyString => if prev then Some acc else None
  | String c r =>
      if is_digit c then int_digits (10 * acc + digit_value c) true r
      else if Ascii.eqb c "_" then (if prev then int_digits acc false r else None)
      else None
  end.

(** [int(s)] for an ASCII string: surrounding white space, an optional
    sign, then the digits; anything else is a [ValueError].  The
    interpreter's cap on the length of a literal ([int_max_str_digits]
    below) is not part of this function: the properties that depend on
    it state the bound. *)
Definition int (s : string) : outcome Z :=
  let t := strip s in
  let '(neg, body) :=
    match t with
    | String "-" r => (true, r)
    | String "+" r => (false, r)
    | _ => (false, t)
    end in
  match int_digits 0 false body with
  | Some v => Ok (if neg then - v else v)
  | None => Raise ValueError
  end.

(** [sys.int_info.default_max_str_digits]: by default [int] raises
    [ValueError] on a literal with more digits than this. *)
Definition int_max_str_digits : nat := 4300.

(** ASCII text without a NUL, as a command-line argument can hold it.
    On such text [str.isdigit], [int] and the pattern [\d] know the
    digits [0] to [9] only, which is what the models here assume. *)
Fixpoint ascii_text (s : string) : bool :=
  match s with
  | String c r =>
      ((1 <=? nat_of_ascii c) && (nat_of_ascii c <=? 127))%nat && ascii_text r
  | EmptyString => true
  end.

(** [s.startswith(c)] for a one-character prefix. *)
Definition startswith (s : string) (c : ascii) : bool :=
  match s with
  | String d _ => Ascii.eqb d c
  | EmptyString => false
  end.

(** [s[1:]]. *)
Definition tail (s : string) : string :=
  match s with
  | String _ r => r
  | EmptyString => EmptyString
  end.

(** [s.isdigit()] for ASCII text: non-empty and all digits. *)
Fixpoint all_digits (s : string) : bool :=
  match s with
  | String c r => is_digit c && all_digits r
  | EmptyString => true
  end.

Definition isdigit (s : string) : bool :=
  match s with
  | EmptyString => false
  | _ => all_digits s
  end.

(** The number a run of decimal digits denotes, read left to right. *)
Fixpoint decimal_from (acc : Z) (s : string) : Z :=
  match s with
  | String c r => decimal_from (10 * acc + digit_value c) r
  | EmptyString => acc
  end.

Definition decimal (s : string) : Z := decimal_from 0 s.

(** ASCII [str.lower]. *)
Definition lower_ascii (c : ascii) : ascii :=
  let n := nat_of_ascii c in
  if ((65 <=? n) && (n <=? 90))%nat then ascii_of_nat (n + 32) else c.

Fixpoint lower (s : string) : string :=
  match s with
  | String c r => String (lower_ascii c) (lower r)
  | EmptyString => EmptyString
  end.

(** [s.count(c)] for a one-character needle. *)
Fixpoint count (c : ascii) (s : string) : Z :=
  match s with
  | String d r => (if Ascii.eqb d c then 1 else 0) + count c r
  | EmptyString => 0
  end.

(** [s[n:]]. *)
Fixpoint drop (n : nat) (s : string) : string :=
  match n, s with
  | O, _ => s
  | S n', String _ r => drop n' r
  | S _, EmptyString => EmptyString
  end.

End Py.

Import Py.

Local Notation "a ==s b" := (String.eqb a b) (at level 70, no associativity).

(** ** The operating system, as the programs read it *)

(** [os.stat_result], with the fields the predicates read.  Time stamps
    are taken in whole seconds since the epoch. *)
Record stat_result : Type := mk_stat {
  st_mode : Z;
  st_uid : Z;
  st_gid : Z;
  st_size : Z;
  st_mtime : Z;
  st_atime : Z;
  st_ctime : Z
}.

(** What the programs ask of the system besides the directory tree:
    [fnmatch.fnmatch name pattern], [pwd.getpwnam(user).pw_uid] and
    [grp.getgrnam(group).gr_gid] ([None] when the lookup raises
    [KeyError]), and [time.time()], whose [k]-th call in a run returns
    [time_time k]. *)
Record OS : Type := mk_OS {
  fnmatch : string -> string -> bool;
  getpwnam : string -> option Z;
  getgrnam : string -> option Z;
  time_time : nat -> Z
}.

(** An operating system for the examples: no glob matches, no user or
    group is known, and the clock stands at [now]. *)
Definition os_at (now : Z) : OS :=
  mk_OS (fun _ _ => false) (fun _ => None) (fun _ => None) (fun _ => now).

(** A regular file of five bytes last touched at the epoch, and a
    directory. *)
Definition st_file : stat_result := mk_stat 33188 1000 1000 5 0 0 0.
Definition st_dir : stat_result := mk_stat 16877 1000 1000 4096 0 0 0.

(** [os.path.join(a, b)] on POSIX. *)
Fixpoint endswith_slash (s : string) : bool :=
  match s with
  | EmptyString => false
  | String c EmptyString => Ascii.eqb c "/"
  | String _ r => endswith_slash r
  end.

Definition os_path_join (a b : string) : string :=
  if startswith b "/" then b
  else if (a ==s "") || endswith_slash a then a ++ b
  else a ++ "/" ++ b.

(** [os.path.basename(p)] on POSIX: what follows the last slash. *)
Fixpoint basename (p : string) : string :=
  match p with
  | EmptyString => EmptyString
  | String c r =>
      if (0 <? count "/" r) then basename r
      else if Ascii.eqb c "/" then r
      else p
  end.

(** The file-type bits of [st_mode] ([stat.S_IFMT] and friends). *)
Definition S_IFMT (mode : Z) : Z := Z.land mode 61440.
Definition S_ISREG (mode : Z) : bool := S_IFMT mode =? 32768.
Definition S_ISDIR (mode : Z) : bool := S_IFMT mode =? 16384.
Definition S_ISLNK (mode : Z) : bool := S_IFMT mode =? 40960.
Definition S_ISBLK (mode : Z) : bool := S_IFMT mode =? 24576.
Definition S_ISCHR (mode : Z) : bool := S_IFMT mode =? 8192.
Definition S_ISFIFO (mode : Z) : bool := S_IFMT mode =? 4096.
Definition S_ISSOCK (mode : Z) : bool := S_IFMT mode =? 49152.

(** ** pyfind.py *)

Module Pyfind.

(** *** Utility functions *)

(** [units] of [parse_size], as a lookup on the last character. *)
Definition units (c : ascii) : option Z :=
  if Ascii.eqb c "b" then Some 1
  else if Ascii.eqb c "c" then Some 1
  else if Ascii.eqb c "w" then Some 2
  else if Ascii.eqb c "k" then Some 1024
  else if Ascii.eqb c "M" then Some (1024 ^ 2)
  else if Ascii.eqb c "G" then Some (1024 ^ 3)
  else None.

(** [s[:-1]] and [s[-1]]. *)
Fixpoint init_last (s : string) : option (string * ascii) :=
  match s with
  | EmptyString => None
  | String c r =>
      match init_last r with
      | None => Some (EmptyString, c)
      | Some (i, l) => Some (String c i, l)
      end
  end.

(** [parse_size]: defined by the program but called by none of its
    predicates. *)
Definition parse_size (size_str : string) : outcome Z :=
  match init_last size_str with
  | None => Raise IndexError
  | Some (i, l) =>
      match units l with
      | Some u => bind (int i) (fun n => Ok (n * u))
      | None => int size_str
      end
  end.

Definition match_pattern (os : OS) (name pattern : string) (case_sensitive : bool) : bool :=
  if case_sensitive then fnmatch os name pattern
  else fnmatch os (lower name) (lower pattern).

(** [n_compare val nstr]: compare [val] to [nstr], which is [+N], [-N] or [N]. *)
Definition n_compare (val : Z) (nstr : string) : outcome bool :=
  if startswith nstr "+" then bind (int (tail nstr)) (fun n => Ok (val >? n))
  else if startswith nstr "-" then bind (int (tail nstr)) (fun n => Ok (val <? n))
  else bind (int nstr) (fun n => Ok (val =? n)).

(** *** Expression evaluation *)

(** The expression classes.  [User] and [Group] hold the id their
    constructor computed; the others hold their argument as given. *)
Inductive Expr : Type :=
| And (left right : Expr)
| Or (left right : Expr)
| Not (expr : Expr)
| Name (pattern : string)
| Iname (pattern : string)
| Type_ (t : string)
| User (uid : Z)
| Group (gid : Z)
| Size (size : string)
| Mtime (n : string)
| Atime (n : string)
| Ctime (n : string)
| TrueExpr
| FalseExpr.

(** The [__init__] methods.  Only [User] and [Group] compute anything. *)
Definition Name_init (pattern : string) : outcome Expr := Ok (Name pattern).
Definition Iname_init (pattern : string) : outcome Expr := Ok (Iname pattern).
Definition Type_init (t : string) : outcome Expr := Ok (Type_ t).
Definition Size_init (size : string) : outcome Expr := Ok (Size size).
Definition Mtime_init (n : string) : outcome Expr := Ok (Mtime n).
Definition Atime_init (n : string) : outcome Expr := Ok (Atime n).
Definition Ctime_init (n : string) : outcome Expr := Ok (Ctime n).

Definition User_init (os : OS) (user : string) : outcome Expr :=
  if isdigit user then bind (int user) (fun uid => Ok (User uid))
  else match getpwnam os user with
       | Some uid => Ok (User uid)
       | None => Raise KeyError
       end.

Definition Group_init (os : OS) (group : string) : outcome Expr :=
  if isdigit group then bind (int group) (fun gid => Ok (Group gid))
  else match getgrnam os group with
       | Some gid => Ok (Group gid)
       | None => Raise KeyError
       end.

(** A computation that may read the clock: from the number of
    [time.time()] calls made so far to its result and the new number. *)
Definition clocked (A : Type) : Type := nat -> outcome A * nat.

Definition cret {A : Type} (a : A) : clocked A := fun k => (Ok a, k).

Definition cbind {A B : Type} (m : clocked A) (f : A -> clocked B) : clocked B :=
  fun k =>
    match m k with
    | (Ok a, k') => f a k'
    | (Raise e, k') => (Raise e, k')
    | (SysExit c, k') => (SysExit c, k')
    end.

Definition clift {A : Type} (m : outcome A) : clocked A := fun k => (m, k).

Definition now (os : OS) : clocked Z := fun k => (Ok (time_time os k), S k).

(** [Type.__call__]. *)
Definition type_test (t : string) (mode : Z) : bool :=
  if t ==s "f" then S_ISREG mode
  else if t ==s "d" then S_ISDIR mode
  else if t ==s "l" then S_ISLNK mode
  else if t ==s "b" then S_ISBLK mode
  else if t ==s "c" then S_ISCHR mode
  else if t ==s "p" then S_ISFIFO mode
  else if t ==s "s" then S_ISSOCK mode
  else false.

(** The body shared by [Mtime], [Atime] and [Ctime]: [days] is computed
    (and may raise) but not used; the age is
    [int((now - stamp) // 86400)]. *)
Definition age_test (os : OS) (n : string) (stamp : Z) : clocked bool :=
  cbind (clift (int (lstrip_chars "+-" n))) (fun days =>
  cbind (now os) (fun t =>
  let age_days := (t - stamp) / 86400 in
  clift (n_compare age_days n))).

(** [expr(path, st)]. *)
Fixpoint eval (os : OS) (e : Expr) (path : string) (st : stat_result) : clocked bool :=
  match e with
  | And l r => cbind (eval os l path st) (fun b => if b then eval os r path st else cret false)
  | Or l r => cbind (eval os l path st) (fun b => if b then cret true else eval os r path st)
  | Not x => cbind (eval os x path st) (fun b => cret (negb b))
  | Name pattern => cret (match_pattern os (basename path) pattern true)
  | Iname pattern => cret (match_pattern os (basename path) pattern false)
  | Type_ t => cret (type_test t (st_mode st))
  | User uid => cret (st_uid st =? uid)
  | Group gid => cret (st_gid st =? gid)
  | Size size => clift (n_compare (st_size st) size)
  | Mtime n => age_test os n (st_mtime st)
  | Atime n => age_test os n (st_atime st)
  | Ctime n => age_test os n (st_ctime st)
  | TrueExpr => cret true
  | FalseExpr => cret false
  end.

(** *** Actions *)

(** The three action functions, by name. *)
Inductive action : Type :=
| action_print
| action_print0
| action_delete.

(** *** Expression parser *)

(** [args[i+1]], an [IndexError] when the list ends before it. *)
Definition next_arg (args : list string) (i : nat) : outcome string :=
  match nth_error args (i + 1) with
  | Some a => Ok a
  | None => Raise IndexError
  end.

(** The [while] loop of [parse_expr], from the state [(expr, actions, i)].
    One unit of [fuel] is spent per iteration and per nested call of
    [parse_expr]; [None] means the fuel ran out.  The text that [--help]
    and [--version] print before [sys.exit(0)] is not recorded. *)
Fixpoint parse_loop (os : OS) (fuel : nat) (args : list string)
    (expr : Expr) (actions : list action) (i : nat)
    : option (outcome (Expr * nat)) :=
  match fuel with
  | O => None
  | S fuel' =>
      match nth_error args i with
      | None => Some (Ok (expr, i))
      | Some arg =>
          let test (init : string -> outcome Expr) :=
            match bind (next_arg args i) init with
            | Ok p => parse_loop os fuel' args (And expr p) actions (i + 2)
            | Raise e => Some (Raise e)
            | SysExit c => Some (SysExit c)
            end in
          let nested (combine : Expr -> Expr) :=
            match parse_loop os fuel' (skipn (i + 1) args) TrueExpr [action_print] 0 with
            | Some (Ok (subexpr, skip)) =>
                parse_loop os fuel' args (combine subexpr) actions (i + skip + 1)
            | Some (Raise e) => Some (Raise e)
            | Some (SysExit c) => Some (SysExit c)
            | None => None
            end in
          if arg ==s "-name" then test Name_init
          else if arg ==s "-iname" then test Iname_init
          else if arg ==s "-type" then test Type_init
          else if arg ==s "-user" then test (User_init os)
          else if arg ==s "-group" then test (Group_init os)
          else if arg ==s "-size" then test Size_init
          else if arg ==s "-mtime" then test Mtime_init
          else if arg ==s "-atime" then test Atime_init
          else if arg ==s "-ctime" then test Ctime_init
          else if arg ==s "-print" then parse_loop os fuel' args expr [action_print] (i + 1)
          else if arg ==s "-print0" then parse_loop os fuel' args expr [action_print0] (i + 1)
          else if arg ==s "-delete" then parse_loop os fuel' args expr [action_delete] (i + 1)
          else if arg ==s "-true" then parse_loop os fuel' args (And expr TrueExpr) actions (i + 1)
          else if arg ==s "-false" then parse_loop os fuel' args (And expr FalseExpr) actions (i + 1)
          else if arg ==s "!" then nested (fun subexpr => And expr (Not subexpr))
          else if arg ==s "-not" then nested (fun subexpr => And expr (Not subexpr))
          else if (arg ==s "-and") || (arg ==s "-a") then parse_loop os fuel' args expr actions (i + 1)
          else if (arg ==s "-or") || (arg ==s "-o") then nested (fun subexpr => Or expr subexpr)
          else if arg ==s "(" then parse_loop os fuel' args expr actions (i + 1)
          else if arg ==s ")" then parse_loop os fuel' args expr actions (i + 1)
          else if arg ==s "--help" then Some (SysExit 0)
          else if arg ==s "--version" then Some (SysExit 0)
          else parse_loop os fuel' args expr actions (i + 1)
      end
  end%nat.

(** [parse_expr args]: the loop from [TrueExpr], [[action_print]] and
    index 0, with the fuel that [parse_expr_returns] shows to be enough. *)
Definition parse_expr (os : OS) (args : list string) : option (outcome (Expr * nat)) :=
  parse_loop os (S (List.length args)) args TrueExpr [action_print] 0%nat.

(** *** Main walk logic *)

(** A directory tree as [os.walk] and [os.lstat] see it.  Each node
    carries what [os.lstat] returns for it ([None] when the call raises).
    [entries] are in the order [os.scandir] lists them.  A [DirLink] is a
    symbolic link to a directory: [os.walk] lists it among the directory
    names and, with [followlinks=False], does not descend into it. *)
#[local] Unset Elimination Schemes.
Inductive node : Type :=
| File (lst : option stat_result)
| Dir (lst : option stat_result) (entries : list (string * node))
| DirLink (lst : option stat_result).
#[local] Set Elimination Schemes.

Definition lstat (n : node) : option stat_result :=
  match n with
  | File l => l
  | Dir l _ => l
  | DirLink l => l
  end.

Definition is_dir (n : node) : bool :=
  match n with
  | File _ => false
  | Dir _ _ => true
  | DirLink _ => true
  end.

Definition dir_entries (entries : list (string * node)) : list (string * node) :=
  filter (fun e => is_dir (snd e)) entries.

Definition file_entries (entries : list (string * node)) : list (string * node) :=
  filter (fun e => negb (is_dir (snd e))) entries.

(** One call [action(path, st)]. *)
Record call : Type := mk_call {
  c_action : action;
  c_path : string;
  c_st : stat_result
}.

(** One iteration of the loop over [os.walk] for the path [v_top]: the
    triple it yielded and the action calls made in the body for it. *)
Record visit : Type := mk_visit {
  v_top : string;
  v_root : string;
  v_dirs : list string;
  v_files : list string;
  v_calls : list call
}.

(** [root[len(top):].count(os.sep)]. *)
Definition rel_depth (top root : string) : Z :=
  count "/" (drop (String.length top) root).

(** The loop [for name in files + dirs] of [walk], over the names with
    their [os.lstat] results.  An action call is taken to return: an
    exception raised by [print] itself (a closed pipe, a name the
    output encoding refuses) is outside the model. *)
Fixpoint walk_names (os : OS) (expr : Expr) (actions : list action)
    (root : string) (names : list (string * node)) (k : nat)
    : list call * outcome unit * nat :=
  match names with
  | [] => ([], Ok tt, k)
  | (name, n) :: rest =>
      let path := os_path_join root name in
      match lstat n with
      | None => walk_names os expr actions root rest k
      | Some st =>
          match eval os expr path st k with
          | (Ok true, k') =>
              let '(calls, r, k'') := walk_names os expr actions root rest k' in
              ((map (fun a => mk_call a path st) actions ++ calls)%list, r, k'')
          | (Ok false, k') => walk_names os expr actions root rest k'
          | (Raise e, k') => ([], Raise e, k')
          | (SysExit c, k') => ([], SysExit c, k')
          end
      end
  end.

Section Walk.

Variables (os : OS) (expr : Expr) (actions : list action).
Variables (mindepth : Z) (maxdepth : option Z) (top : string).

(** [mindepth and rel_depth < mindepth]. *)
Definition below_mindepth (d : Z) : bool :=
  negb (mindepth =? 0) && (d <? mindepth).

(** [maxdepth is not None and rel_depth > maxdepth]. *)
Definition above_maxdepth (d : Z) : bool :=
  match maxdepth with
  | Some m => d >? m
  | None => false
  end.

(** [os.walk(top, topdown=True, followlinks=False)] run together with the
    body of the loop in [walk]: the directory [root] is listed and its
    triple yielded, the body runs (and may empty [dirs]), then the
    generator descends into what is left of [dirs]. *)
Fixpoint walk_dir (root : string) (n : node) (k : nat) {struct n}
    : list visit * outcome unit * nat :=
  match n with
  | Dir _ entries =>
      let dirs := map fst (dir_entries entries) in
      let files := map fst (file_entries entries) in
      let descend :=
        fix descend (es : list (string * node)) (k : nat) {struct es}
            : list visit * outcome unit * nat :=
          match es with
          | [] => ([], Ok tt, k)
          | (name, child) :: es' =>
              match child with
              | Dir _ _ =>
                  match walk_dir (os_path_join root name) child k with
                  | (vs, Ok _, k') =>
                      let '(vs', r, k'') := descend es' k' in ((vs ++ vs')%list, r, k'')
                  | (vs, Raise e, k') => (vs, Raise e, k')
                  | (vs, SysExit c, k') => (vs, SysExit c, k')
                  end
              | _ => descend es' k
              end
          end in
      if below_mindepth (rel_depth top root) then
        let '(vs, r, k') := descend entries k in
        (mk_visit top root dirs files [] :: vs, r, k')
      else if above_maxdepth (rel_depth top root) then
        ([mk_visit top root dirs files []], Ok tt, k)
      else
        match walk_names os expr actions root
                (file_entries entries ++ dir_entries entries)%list k with
        | (calls, Ok _, k') =>
            let '(vs, r, k'') := descend entries k' in
            (mk_visit top root dirs files calls :: vs, r, k'')
        | (calls, Raise e, k') => ([mk_visit top root dirs files calls], Raise e, k')
        | (calls, SysExit c, k') => ([mk_visit top root dirs files calls], SysExit c, k')
        end
  | _ => ([], Ok tt, k)
  end.

(** The descent of [os.walk] into the sub-directories of [root]. *)
Definition descend (root : string) : list (string * node) -> nat -> list visit * outcome unit * nat :=
  fix descend (es : list (string * node)) (k : nat) {struct es}
      : list visit * outcome unit * nat :=
    match es with
    | [] => ([], Ok tt, k)
    | (name, child) :: es' =>
        match child with
        | Dir _ _ =>
            match walk_dir (os_path_join root name) child k with
            | (vs, Ok _, k') =>
                let '(vs', r, k'') := descend es' k' in ((vs ++ vs')%list, r, k'')
            | (vs, Raise e, k') => (vs, Raise e, k')
            | (vs, SysExit c, k') => (vs, SysExit c, k')
            end
        | _ => descend es' k
        end
    end.

End Walk.

(** [walk paths expr actions mindepth maxdepth]; [fs top] is the tree
    [os.walk(top)] finds at [top] ([None] when nothing can be listed
    there). *)
Fixpoint walk (os : OS) (fs : string -> option node) (paths : list string)
    (expr : Expr) (actions : list action) (mindepth : Z) (maxdepth : option Z)
    (k : nat) : list visit * outcome unit * nat :=
  match paths with
  | [] => ([], Ok tt, k)
  | top :: rest =>
      match fs top with
      | None => walk os fs rest expr actions mindepth maxdepth k
      | Some n =>
          match walk_dir os expr actions mindepth maxdepth top top n k with
          | (vs, Ok _, k') =>
              let '(vs', r, k'') := walk os fs rest expr actions mindepth maxdepth k' in
              ((vs ++ vs')%list, r, k'')
          | (vs, Raise e, k') => (vs, Raise e, k')
          | (vs, SysExit c, k') => (vs, SysExit c, k')
          end
      end
  end.

(** *** CLI entry *)

(** The leading arguments that do not start with a dash are the paths. *)
Fixpoint split_paths (argv : list string) : list string * list string :=
  match argv with
  | [] => ([], [])
  | a :: rest =>
      if startswith a "-" then ([], argv)
      else let '(paths, expr_args) := split_paths rest in (a :: paths, expr_args)
  end.

(** The loop [for j, arg in enumerate(expr_args)] of [main], from the
    current [actions]. *)
Fixpoint select_actions (actions : list action) (expr_args : list string) : list action :=
  match expr_args with
  | [] => actions
  | arg :: rest =>
      select_actions
        (if arg ==s "-print" then [action_print]
         else if arg ==s "-print0" then [action_print0]
         else if arg ==s "-delete" then [action_delete]
         else actions)
        rest
  end.

(** [l.index(x)] for an [x] that occurs in [l]. *)
Fixpoint index (x : string) (l : list string) : nat :=
  match l with
  | [] => O
  | y :: rest => if y ==s x then O else S (index x rest)
  end.

(** [int(expr_args[expr_args.index(flag) + 1])] when [flag in expr_args]. *)
Definition depth_option (flag : string) (expr_args : list string) : outcome (option Z) :=
  if existsb (fun a => a ==s flag) expr_args then
    bind (next_arg expr_args (index flag expr_args)) (fun a =>
    bind (int a) (fun d => Ok (Some d)))
  else Ok None.

(** What a run did: the iterations of the walk and how it ended. *)
Record run : Type := mk_run {
  visits : list visit;
  status : outcome unit
}.

Definition failed (r : outcome unit) : run := mk_run [] r.

Definition main (os : OS) (fs : string -> option node) (argv : list string) : option run :=
  let '(paths0, expr_args) := split_paths argv in
  let paths := match paths0 with [] => ["."] | _ => paths0 end in
  match parse_expr os expr_args with
  | None => None
  | Some (Raise e) => Some (failed (Raise e))
  | Some (SysExit c) => Some (failed (SysExit c))
  | Some (Ok (expr, _)) =>
      let actions := select_actions [action_print] expr_args in
      match depth_option "-mindepth" expr_args with
      | Raise e => Some (failed (Raise e))
      | SysExit c => Some (failed (SysExit c))
      | Ok mind =>
          let mindepth := match mind with Some d => d | None => 0 end in
          match depth_option "-maxdepth" expr_args with
          | Raise e => Some (failed (Raise e))
          | SysExit c => Some (failed (SysExit c))
          | Ok maxdepth =>
              let '(vs, r, _) := walk os fs paths expr actions mindepth maxdepth 0%nat in
              Some (mk_run vs r)
          end
      end
  end.

(** What an action call writes to the standard output. *)
Definition printed (c : call) : string :=
  match c_action c with
  | action_print => c_path c ++ String (ascii_of_nat 10) EmptyString
  | action_print0 => c_path c ++ String (ascii_of_nat 0) EmptyString
  | action_delete => EmptyString
  end.

Definition calls_of (r : run) : list call := flat_map v_calls (visits r).

Definition stdout (r : run) : string := String.concat "" (map printed (calls_of r)).

End Pyfind.

(** ** pfind.py *)

Module Pfind.

(** The longest run of digits [s] starts with, and what follows it. *)
Fixpoint span_digits (s : string) : string * string :=
  match s with
  | String c r =>
      if is_digit c then let '(ds, rest) := span_digits r in (String c ds, rest)
      else (EmptyString, s)
  | EmptyString => (EmptyString, EmptyString)
  end.

(** [parse_size_expr]: [None] for an empty expression; otherwise the
    groups of [re.match(r"([+-]?)(\d+)([kKmMgG]?)", expr)], which anchors
    the pattern at the start of [expr] only, or a [ValueError] when it
    does not match. *)
Definition parse_size_expr (expr : string) : outcome (option (string * Z)) :=
  if expr ==s "" then Ok None
  else
    let '(sign, after_sign) :=
      match expr with
      | String "+" r => ("+", r)
      | String "-" r => ("-", r)
      | _ => ("", expr)
      end in
    let '(num, after_num) := span_digits after_sign in
    if num ==s "" then Raise ValueError
    else
      let unit :=
        match after_num with
        | String c _ => if mem_ascii c "kKmMgG" then String c EmptyString else EmptyString
        | EmptyString => EmptyString
        end in
      bind (int num) (fun num =>
      let factor :=
        if lower unit ==s "k" then 1024
        else if lower unit ==s "m" then 1024 ^ 2
        else if lower unit ==s "g" then 1024 ^ 3
        else 1 in
      Ok (Some (sign, num * factor))).

(** [not expr] for an [Optional[str]]. *)
Definition falsy (expr : option string) : bool :=
  match expr with
  | None => true
  | Some e => e ==s ""
  end.

Definition match_size (size : Z) (expr : option string) : outcome bool :=
  match expr with
  | None => Ok true
  | Some e =>
      if e ==s "" then Ok true
      else
        bind (parse_size_expr e) (fun r =>
        match r with
        | None => Raise TypeError
        | Some (sign, value) =>
            if sign ==s "+" then Ok (size >? value)
            else if sign ==s "-" then Ok (size <? value)
            else Ok (size =? value)
        end)
  end.

(** A directory tree as [os.walk] and [os.path.getsize] see it: every
    node carries what [os.path.getsize] returns for it ([None] when it
    raises [OSError]); a [DirLink] is a symbolic link to a directory,
    listed among the directory names and not descended into. *)
#[local] Unset Elimination Schemes.
Inductive node : Type :=
| File (getsize : option Z)
| Dir (getsize : option Z) (entries : list (string * node))
| DirLink (getsize : option Z).
#[local] Set Elimination Schemes.

Definition getsize (n : node) : outcome Z :=
  match n with
  | File (Some z) | Dir (Some z) _ | DirLink (Some z) => Ok z
  | _ => Raise OSError
  end.

Definition is_dir (n : node) : bool :=
  match n with
  | File _ => false
  | Dir _ _ => true
  | DirLink _ => true
  end.

Definition dir_entries (entries : list (string * node)) : list (string * node) :=
  filter (fun e => is_dir (snd e)) entries.

Definition file_entries (entries : list (string * node)) : list (string * node) :=
  filter (fun e => negb (is_dir (snd e))) entries.

(** [type_ in (None, k)]. *)
Definition type_in (type_ : option string) (k : string) : bool :=
  match type_ with
  | None => true
  | Some t => t ==s k
  end.

(** [name and not fnmatch.fnmatch(d, name)]: the entry is skipped. *)
Definition name_rejects (os : OS) (name : option string) (d : string) : bool :=
  match name with
  | None => false
  | Some pat => if pat ==s "" then false else negb (fnmatch os d pat)
  end.

Section Traverse.

Variables (os : OS) (name type_ size : option string).

(** [for d in dirnames]: the paths the loop yields. *)
Fixpoint yield_dirs (dirpath : string) (dirs : list (string * node)) : list string :=
  match dirs with
  | [] => []
  | (d, _) :: rest =>
      let path := os_path_join dirpath d in
      if name_rejects os name d then yield_dirs dirpath rest
      else path :: yield_dirs dirpath rest
  end.

(** [for f in filenames]: the paths the loop yields and how it ends. *)
Fixpoint yield_files (dirpath : string) (files : list (string * node))
    : list string * outcome unit :=
  match files with
  | [] => ([], Ok tt)
  | (f, n) :: rest =>
      let path := os_path_join dirpath f in
      if name_rejects os name f then yield_files dirpath rest
      else if falsy size then
        let '(ys, r) := yield_files dirpath rest in (path :: ys, r)
      else
        match bind (getsize n) (fun sz => match_size sz size) with
        | Ok true => let '(ys, r) := yield_files dirpath rest in (path :: ys, r)
        | Ok false => yield_files dirpath rest
        | Raise e => ([], Raise e)
        | SysExit c => ([], SysExit c)
        end
  end.

(** [os.walk(root)] run together with the body of the loop in
    [traverse]. *)
Fixpoint traverse_dir (dirpath : string) (n : node) {struct n}
    : list string * outcome unit :=
  match n with
  | Dir _ entries =>
      let descend :=
        fix descend (es : list (string * node)) {struct es} : list string * outcome unit :=
          match es with
          | [] => ([], Ok tt)
          | (d, child) :: es' =>
              match child with
              | Dir _ _ =>
                  match traverse_dir (os_path_join dirpath d) child with
                  | (ys, Ok _) => let '(ys', r) := descend es' in ((ys ++ ys')%list, r)
                  | (ys, r) => (ys, r)
                  end
              | _ => descend es'
              end
          end in
      let ds := if type_in type_ "d" then yield_dirs dirpath (dir_entries entries) else [] in
      let '(fs, r) :=
        if type_in type_ "f" then yield_files dirpath (file_entries entries)
        else ([], Ok tt) in
      match r with
      | Ok _ => let '(ys, r') := descend entries in ((ds ++ fs ++ ys)%list, r')
      | _ => ((ds ++ fs)%list, r)
      end
  | _ => ([], Ok tt)
  end.

Definition descend (dirpath : string) : list (string * node) -> list string * outcome unit :=
  fix descend (es : list (string * node)) {struct es} : list string * outcome unit :=
    match es with
    | [] => ([], Ok tt)
    | (d, child) :: es' =>
        match child with
        | Dir _ _ =>
            match traverse_dir (os_path_join dirpath d) child with
            | (ys, Ok _) => let '(ys', r) := descend es' in ((ys ++ ys')%list, r)
            | (ys, r) => (ys, r)
            end
        | _ => descend es'
        end
    end.

End Traverse.

(** [traverse root name type_ size]: the paths the generator yields, in
    order, and how it ends; [fs root] is the tree [os.walk(root)] finds. *)
Definition traverse (os : OS) (fs : string -> option node)
    (root : string) (name type_ size : option string) : list string * outcome unit :=
  match fs root with
  | Some n => traverse_dir os name type_ size root n
  | None => ([], Ok tt)
  end.

End Pfind.

(** * Properties *)

(** ** Integer literals *)

Section IntFacts.

Lemma digit_not_space (c : ascii) : is_digit c = true -> is_space c = false.
Proof.
  destruct c as [[] [] [] [] [] [] [] []]; vm_compute; congruence.
Qed.

Lemma digit_not_sign (c : ascii) :
  is_digit c = true -> Ascii.eqb c "+" = false /\ Ascii.eqb c "-" = false.
Proof.
  destruct c as [[] [] [] [] [] [] [] []]; vm_compute; split; congruence.
Qed.

Lemma lstrip_digits (s : string) : isdigit s = true -> lstrip s = s.
Proof.
  destruct s as [|c r]; simpl; [discriminate|].
  intros H. apply andb_prop in H as [Hc _].
  now rewrite (digit_not_space c Hc).
Qed.

Lemma rstrip_digits (s : string) : all_digits s = true -> rstrip s = s.
Proof.
  induction s as [|c r IH]; simpl; [reflexivity|].
  intros H. apply andb_prop in H as [Hc Hr].
  rewrite (IH Hr). destruct r; [|reflexivity].
  now rewrite (digit_not_space c Hc).
Qed.

Lemma isdigit_all (s : string) : isdigit s = true -> all_digits s = true.
Proof. destruct s; [discriminate|exact (fun H => H)]. Qed.

Lemma int_digits_decimal (s : string) :
  all_digits s = true ->
  forall acc prev, (s <> EmptyString \/ prev = true) ->
  int_digits acc prev s = Some (decimal_from acc s).
Proof.
  induction s as [|c r IH]; simpl; intros H acc prev Hne.
  - destruct Hne as [Hne | ->]; [congruence | reflexivity].
  - apply andb_prop in H as [Hc Hr]. rewrite Hc.
    apply IH; [exact Hr | now right].
Qed.

(** [int] reads a non-empty run of decimal digits as the number it
    denotes. *)
Lemma int_decimal (s : string) : isdigit s = true -> int s = Ok (decimal s).
Proof.
  intros H. unfold int, strip.
  rewrite (lstrip_digits s H), (rstrip_digits s (isdigit_all s H)).
  destruct s as [|c r]; [discriminate|].
  simpl in H. apply andb_prop in H as [Hc Hr].
  destruct (digit_not_sign c Hc) as [Hp Hm].
  assert (Hbody : match String c r with
                  | String "-" r0 => (true, r0)
                  | String "+" r0 => (false, r0)
                  | _ => (false, String c r)
                  end = (false, String c r)).
  { destruct c as [[] [] [] [] [] [] [] []]; try reflexivity;
      vm_compute in Hp, Hm; congruence. }
  rewrite Hbody.
  rewrite int_digits_decimal; [reflexivity | simpl; now rewrite Hc, Hr | left; congruence].
Qed.

Lemma span_digits_all (s : string) :
  all_digits s = true -> Pfind.span_digits s = (s, EmptyString).
Proof.
  induction s as [|c r IH]; simpl; [reflexivity|].
  intros H. apply andb_prop in H as [Hc Hr]. now rewrite Hc, (IH Hr).
Qed.

Lemma lstrip_signs_digits (s : string) :
  isdigit s = true -> lstrip_chars "+-" s = s.
Proof.
  destruct s as [|c r]; simpl; [discriminate|].
  intros H. apply andb_prop in H as [Hc _].
  destruct (digit_not_sign c Hc) as [-> ->]. reflexivity.
Qed.

End IntFacts.

(** ** The comparison convention (C1) *)

(** The three comparisons a numeric argument can ask for, the argument
    that asks for each, and what each means. *)
Inductive comparison_kind : Type :=
| greater_than
| less_than
| equal_to.

Definition spec_string (c : comparison_kind) (N : string) : string :=
  match c with
  | greater_than => "+" ++ N
  | less_than => "-" ++ N
  | equal_to => N
  end.

Definition compares (c : comparison_kind) (v n : Z) : Prop :=
  match c with
  | greater_than => v > n
  | less_than => v < n
  | equal_to => v = n
  end.

(** [r] returns a boolean, and that boolean is true exactly when [P]. *)
Definition decides (r : outcome bool) (P : Prop) : Prop :=
  exists b : bool, r = Ok b /\ (b = true <-> P).

(** The age in whole days that the [k]-th reading of the clock gives a
    time stamp. *)
Definition age_days (os : OS) (k : nat) (stamp : Z) : Z :=
  (time_time os k - stamp) / 86400.

Lemma decides_gtb (v n : Z) : decides (Ok (v >? n)) (v > n).
Proof. exists (v >? n). split; [reflexivity | rewrite Z.gtb_ltb, Z.ltb_lt; lia]. Qed.

Lemma decides_ltb (v n : Z) : decides (Ok (v <? n)) (v < n).
Proof. exists (v <? n). split; [reflexivity | apply Z.ltb_lt]. Qed.

Lemma decides_eqb (v n : Z) : decides (Ok (v =? n)) (v = n).
Proof. exists (v =? n). split; [reflexivity | apply Z.eqb_eq]. Qed.

Lemma n_compare_convention (c : comparison_kind) (N : string) (v : Z) :
  isdigit N = true ->
  decides (Pyfind.n_compare v (spec_string c N)) (compares c v (decimal N)).
Proof.
  intros H. unfold Pyfind.n_compare.
  destruct c; simpl.
  - rewrite (int_decimal N H). apply decides_gtb.
  - rewrite (int_decimal N H). apply decides_ltb.
  - destruct N as [|d r]; [discriminate|].
    pose proof H as H'. simpl in H'. apply andb_prop in H' as [Hd _].
    destruct (digit_not_sign d Hd) as [Hp Hm]. simpl. rewrite Hp, Hm.
    rewrite (int_decimal _ H). apply decides_eqb.
Qed.

Lemma match_size_convention (c : comparison_kind) (N : string) (v : Z) :
  isdigit N = true ->
  decides (Pfind.match_size v (Some (spec_string c N))) (compares c v (decimal N)).
Proof.
  intros H. pose proof (isdigit_all N H) as Hall.
  assert (Hne : (N ==s "") = false) by (destruct N; [discriminate | reflexivity]).
  unfold Pfind.match_size, Pfind.parse_size_expr.
  destruct c; simpl.
  - rewrite (span_digits_all N Hall), Hne, (int_decimal N H). simpl.
    rewrite Z.mul_1_r. apply decides_gtb.
  - rewrite (span_digits_all N Hall), Hne, (int_decimal N H). simpl.
    rewrite Z.mul_1_r. apply decides_ltb.
  - rewrite Hne.
    destruct N as [|d r]; [discriminate|].
    pose proof H as H'. simpl in H'. apply andb_prop in H' as [Hd _].
    destruct (digit_not_sign d Hd) as [Hp Hm].
    assert (Hsign : match String d r with
                    | String "+" r0 => ("+", r0)
                    | String "-" r0 => ("-", r0)
                    | _ => ("", String d r)
                    end = ("", String d r)).
    { destruct d as [[] [] [] [] [] [] [] []]; try reflexivity;
        vm_compute in Hp, Hm; congruence. }
    rewrite Hsign, (span_digits_all _ Hall). simpl.
    rewrite (int_decimal _ H). simpl.
    rewrite Z.mul_1_r. apply decides_eqb.
Qed.

Lemma lstrip_signs_spec (c : comparison_kind) (N : string) :
  isdigit N = true -> lstrip_chars "+-" (spec_string c N) = N.
Proof.
  intros H. destruct c; simpl; now apply lstrip_signs_digits.
Qed.

Lemma age_test_convention (os : OS) (c : comparison_kind) (N : string) (stamp : Z) (k : nat) :
  isdigit N = true ->
  Pyfind.age_test os (spec_string c N) stamp k =
    (Pyfind.n_compare (age_days os k stamp) (spec_string c N), S k).
Proof.
  intros H. unfold Pyfind.age_test, Pyfind.cbind, Pyfind.clift, Pyfind.now.
  rewrite (lstrip_signs_spec c N H), (int_decimal N H). reflexivity.
Qed.

(** C1.  For a numeric argument [N] (a non-empty run of decimal digits)
    and every integer [v]: the argument [+N] holds of [v] exactly when
    [v > N], [-N] exactly when [v < N], and a bare [N] exactly when
    [v = N].  This is what [n_compare] of pyfind and [match_size] of pfind
    compute, and what the size predicate (on the size in bytes) and the
    three age predicates (on the age in whole days) of pyfind evaluate
    to. *)
Theorem comparison_convention (c : comparison_kind) (N : string) (v : Z) :
  isdigit N = true ->
  decides (Pyfind.n_compare v (spec_string c N)) (compares c v (decimal N)) /\
  decides (Pfind.match_size v (Some (spec_string c N))) (compares c v (decimal N)) /\
  forall (os : OS) (path : string) (st : stat_result) (k : nat),
    decides (fst (Pyfind.eval os (Pyfind.Size (spec_string c N)) path st k))
            (compares c (st_size st) (decimal N)) /\
    decides (fst (Pyfind.eval os (Pyfind.Mtime (spec_string c N)) path st k))
            (compares c (age_days os k (st_mtime st)) (decimal N)) /\
    decides (fst (Pyfind.eval os (Pyfind.Atime (spec_string c N)) path st k))
            (compares c (age_days os k (st_atime st)) (decimal N)) /\
    decides (fst (Pyfind.eval os (Pyfind.Ctime (spec_string c N)) path st k))
            (compares c (age_days os k (st_ctime st)) (decimal N)).
Proof.
  intros H. split; [now apply n_compare_convention|].
  split; [now apply match_size_convention|].
  intros os path st k. simpl.
  rewrite !age_test_convention by exact H. simpl.
  repeat split; now apply n_compare_convention.
Qed.

Lemma comparison_convention_witness :
  isdigit "100" = true /\
  decides (Pyfind.n_compare 101 "+100") (101 > 100) /\
  decides (Pfind.match_size 101 (Some "+100")) (101 > 100).
Proof.
  split; [reflexivity|].
  pose proof (comparison_convention greater_than "100" 101 eq_refl) as [H1 [H2 _]].
  split; [exact H1 | exact H2].
Defined.

(** ** The scan of [parse_expr], one token at a time *)

Section Parser.

Import Pyfind.

Variable os : OS.

(** What the [if]/[elif] chain of [parse_expr] does with a token. *)
Inductive token_class : Type :=
| is_test (init : string -> outcome Expr)
| is_action (a : action)
| is_constant (e : Expr)
| is_negation
| is_disjunction
| is_separator
| is_exit
| is_unknown.

Definition classify (arg : string) : token_class :=
  if arg ==s "-name" then is_test Name_init
  else if arg ==s "-iname" then is_test Iname_init
  else if arg ==s "-type" then is_test Type_init
  else if arg ==s "-user" then is_test (User_init os)
  else if arg ==s "-group" then is_test (Group_init os)
  else if arg ==s "-size" then is_test Size_init
  else if arg ==s "-mtime" then is_test Mtime_init
  else if arg ==s "-atime" then is_test Atime_init
  else if arg ==s "-ctime" then is_test Ctime_init
  else if arg ==s "-print" then is_action action_print
  else if arg ==s "-print0" then is_action action_print0
  else if arg ==s "-delete" then is_action action_delete
  else if arg ==s "-true" then is_constant TrueExpr
  else if arg ==s "-false" then is_constant FalseExpr
  else if arg ==s "!" then is_negation
  else if arg ==s "-not" then is_negation
  else if (arg ==s "-and") || (arg ==s "-a") then is_separator
  else if (arg ==s "-or") || (arg ==s "-o") then is_disjunction
  else if arg ==s "(" then is_separator
  else if arg ==s ")" then is_separator
  else if arg ==s "--help" then is_exit
  else if arg ==s "--version" then is_exit
  else is_unknown.

(** A nested call of [parse_expr] on [args[i+1:]], and the scan resumed
    at [i + skip + 1] with the combined expression. *)
Definition nested_call (fuel : nat) (args : list string) (actions : list action)
    (i : nat) (combine : Expr -> Expr) : option (outcome (Expr * nat)) :=
  match parse_loop os fuel (skipn (i + 1) args) TrueExpr [action_print] 0 with
  | Some (Ok (subexpr, skip)) =>
      parse_loop os fuel args (combine subexpr) actions (i + skip + 1)
  | Some (Raise e) => Some (Raise e)
  | Some (SysExit c) => Some (SysExit c)
  | None => None
  end.

Lemma parse_loop_step (fuel : nat) (args : list string) (expr : Expr)
    (actions : list action) (i : nat) :
  parse_loop os (S fuel) args expr actions i =
    match nth_error args i with
    | None => Some (Ok (expr, i))
    | Some arg =>
        match classify arg with
        | is_test init =>
            match bind (next_arg args i) init with
            | Ok p => parse_loop os fuel args (And expr p) actions (i + 2)
            | Raise e => Some (Raise e)
            | SysExit c => Some (SysExit c)
            end
        | is_action a => parse_loop os fuel args expr [a] (i + 1)
        | is_constant e => parse_loop os fuel args (And expr e) actions (i + 1)
        | is_negation => nested_call fuel args actions i (fun subexpr => And expr (Not subexpr))
        | is_disjunction => nested_call fuel args actions i (fun subexpr => Or expr subexpr)
        | is_separator => parse_loop os fuel args expr actions (i + 1)
        | is_exit => Some (SysExit 0)
        | is_unknown => parse_loop os fuel args expr actions (i + 1)
        end
    end.
Proof.
  cbn [parse_loop]. destruct (nth_error args i) as [arg|]; [|reflexivity].
  unfold classify, nested_call.
  repeat match goal with
         | |- context [if ?b then _ else _] => destruct b; [reflexivity|]
         end.
  reflexivity.
Qed.

(** More fuel never changes a result. *)
Lemma parse_loop_mono (fuel : nat) :
  forall fuel' args expr actions i r,
    (fuel <= fuel')%nat ->
    parse_loop os fuel args expr actions i = Some r ->
    parse_loop os fuel' args expr actions i = Some r.
Proof.
  induction fuel as [|fuel IH]; intros fuel' args expr actions i r Hle H;
    [discriminate|].
  destruct fuel' as [|fuel']; [lia|].
  rewrite parse_loop_step in H |- *.
  destruct (nth_error args i) as [arg|]; [|exact H].
  assert (Hnested : forall combine,
             nested_call fuel args actions i combine = Some r ->
             nested_call fuel' args actions i combine = Some r).
  { intros combine. unfold nested_call.
    destruct (parse_loop os fuel (skipn (i + 1) args) TrueExpr [action_print] 0)
      as [sub|] eqn:E; [|discriminate].
    rewrite (IH fuel' _ _ _ _ _ ltac:(lia) E).
    destruct sub as [[subexpr skip]| |]; try exact (fun H => H).
    apply IH; lia. }
  destruct (classify arg); try (apply IH; [lia | exact H]); auto.
  destruct (bind (next_arg args i) init); [apply IH; [lia | exact H] | exact H ..].
Qed.

(** The scan returns: fuel beyond the number of tokens left is enough. *)
Lemma parse_loop_enough (fuel : nat) :
  forall args expr actions i,
    (List.length args - i < fuel)%nat ->
    exists r, parse_loop os fuel args expr actions i = Some r.
Proof.
  induction fuel as [|fuel IH]; intros args expr actions i Hlt; [lia|].
  rewrite parse_loop_step.
  destruct (nth_error args i) as [arg|] eqn:Harg; [|eauto].
  assert (Hi : (i < List.length args)%nat)
    by (apply nth_error_Some; congruence).
  assert (Hnested : forall combine,
             exists r, nested_call fuel args actions i combine = Some r).
  { intros combine. unfold nested_call.
    destruct (IH (skipn (i + 1) args) TrueExpr [action_print] 0%nat) as [sub ->].
    { rewrite length_skipn. lia. }
    destruct sub as [[subexpr skip]| |]; eauto.
    apply IH. lia. }
  destruct (classify arg); try (apply IH; lia); eauto.
  destruct (bind (next_arg args i) init); eauto. apply IH. lia.
Qed.

Lemma parse_loop_more (fuel : nat) (args : list string) (expr : Expr)
    (actions : list action) (i : nat) :
  (List.length args - i < fuel)%nat ->
  parse_loop os (S fuel) args expr actions i = parse_loop os fuel args expr actions i.
Proof.
  intros Hlt. destruct (parse_loop_enough fuel args expr actions i Hlt) as [r Hr].
  rewrite Hr. apply (parse_loop_mono fuel); [lia | exact Hr].
Qed.

Lemma parse_expr_fuel (fuel : nat) (args : list string) :
  (List.length args < fuel)%nat ->
  parse_loop os fuel args TrueExpr [action_print] 0 = parse_expr os args.
Proof.
  intros Hlt. unfold parse_expr.
  destruct (parse_loop_enough (S (List.length args)) args TrueExpr [action_print] 0%nat)
    as [r Hr]; [lia|].
  rewrite Hr. apply (parse_loop_mono (S (List.length args))); [lia | exact Hr].
Qed.

(** [parse_expr] returns on every argument list. *)
Lemma parse_expr_returns (args : list string) :
  exists r, parse_expr os args = Some r.
Proof. apply parse_loop_enough. lia. Qed.

(** When the scan returns normally, its index is the length of the list. *)
Lemma parse_loop_end (fuel : nat) :
  forall args expr actions i e j,
    (i <= List.length args)%nat ->
    parse_loop os fuel args expr actions i = Some (Ok (e, j)) ->
    j = List.length args.
Proof.
  induction fuel as [|fuel IH]; intros args expr actions i e j Hi H; [discriminate|].
  rewrite parse_loop_step in H.
  destruct (nth_error args i) as [arg|] eqn:Harg.
  - assert (Hlt : (i < List.length args)%nat)
      by (apply nth_error_Some; congruence).
    assert (Hnested : forall combine,
               nested_call fuel args actions i combine = Some (Ok (e, j)) ->
               j = List.length args).
    { intros combine. unfold nested_call.
      destruct (parse_loop os fuel (skipn (i + 1) args) TrueExpr [action_print] 0)
        as [[[subexpr skip]| |]|] eqn:E; try discriminate.
      apply IH in E; [|lia]. rewrite length_skipn in E.
      apply IH. lia. }
    destruct (classify arg); try (apply IH in H; [exact H | lia]);
      try (eapply Hnested; exact H); try discriminate.
    unfold next_arg in H.
    destruct (nth_error args (i + 1)) as [a|] eqn:Ha; [|discriminate].
    assert ((i + 1 < List.length args)%nat) by (apply nth_error_Some; congruence).
    simpl in H. destruct (init a); try discriminate.
    apply IH in H; [exact H | lia].
  - apply nth_error_None in Harg. inversion H. lia.
Qed.

Lemma parse_expr_end (args : list string) (e : Expr) (j : nat) :
  parse_expr os args = Some (Ok (e, j)) -> j = List.length args.
Proof. apply parse_loop_end. lia. Qed.

(** A scan that stands on an operator that recurses: the rest of the list
    is parsed by a nested call, and the scan ends with it. *)
Lemma nested_to_end (fuel : nat) (args : list string) (actions : list action)
    (i : nat) (combine : Expr -> Expr) :
  (i < List.length args)%nat ->
  (List.length args - i <= fuel)%nat ->
  nested_call fuel args actions i combine =
    match parse_expr os (skipn (i + 1) args) with
    | Some (Ok (subexpr, skip)) => Some (Ok (combine subexpr, List.length args))
    | Some (Raise e) => Some (Raise e)
    | Some (SysExit c) => Some (SysExit c)
    | None => None
    end.
Proof.
  intros Hi Hfuel. unfold nested_call.
  rewrite parse_expr_fuel by (rewrite length_skipn; lia).
  destruct (parse_expr os (skipn (i + 1) args)) as [[[subexpr skip]| |]|] eqn:E;
    try reflexivity.
  apply parse_expr_end in E. rewrite length_skipn in E.
  replace (i + skip + 1)%nat with (List.length args) by lia.
  destruct fuel as [|fuel]; [lia|].
  rewrite parse_loop_step.
  replace (nth_error args (List.length args)) with (@None string); [reflexivity|].
  symmetry. apply nth_error_None. lia.
Qed.

(** The tokens of the command line, by what the specification calls
    them. *)
Definition test_flags : list string :=
  ["-name"; "-iname"; "-type"; "-user"; "-group"; "-size"; "-mtime"; "-atime"; "-ctime"].

Definition recognized_tokens : list string :=
  (test_flags ++ ["-true"; "-false"; "-print"; "-print0"; "-delete";
                  "!"; "-not"; "-and"; "-a"; "-or"; "-o"; "("; ")";
                  "--help"; "--version"])%list.

Lemma classify_test (tok : string) :
  In tok test_flags -> exists init, classify tok = is_test init.
Proof.
  unfold test_flags. simpl.
  intros H. repeat (destruct H as [<- | H]; [eexists; reflexivity|]).
  contradiction.
Qed.

Ltac in_tokens :=
  unfold recognized_tokens, test_flags; simpl;
  repeat (first [left; reflexivity | right]).

Lemma classify_unknown (tok : string) :
  ~ In tok recognized_tokens -> classify tok = is_unknown.
Proof.
  intros H. unfold classify.
  repeat match goal with
         | |- context [?a ==s ?b] =>
             destruct (String.eqb_spec a b) as [E|_];
             [exfalso; apply H; rewrite E; in_tokens|]
         end.
  reflexivity.
Qed.

(** C2.  Whenever the scan of [parse_expr] stands on a [!] or [-not]
    (position [i] of the token list, [expr] being the predicate
    accumulated so far), the whole remainder [args[i+1:]] is parsed by a
    nested [parse_expr], which returns on every remainder and, when it
    returns a sub-expression, has consumed the remainder to its end; the
    scan then ends at the end of the list with
    [And expr (Not subexpr)].  When the nested parse raises or exits, so
    does the scan.  (A token that a test flag before it takes as its
    argument is not a position the scan stands on.) *)
Theorem negation_parses_remainder (fuel : nat) (args : list string)
    (expr : Expr) (actions : list action) (i : nat) (tok : string) :
  nth_error args i = Some tok ->
  tok = "!" \/ tok = "-not" ->
  (List.length args - i < fuel)%nat ->
  parse_loop os fuel args expr actions i =
    match parse_expr os (skipn (i + 1) args) with
    | Some (Ok (subexpr, skip)) => Some (Ok (And expr (Not subexpr), List.length args))
    | Some (Raise e) => Some (Raise e)
    | Some (SysExit c) => Some (SysExit c)
    | None => None
    end /\
  (exists r, parse_expr os (skipn (i + 1) args) = Some r) /\
  (forall subexpr skip,
     parse_expr os (skipn (i + 1) args) = Some (Ok (subexpr, skip)) ->
     skip = List.length (skipn (i + 1) args)).
Proof.
  intros Htok Hop Hfuel.
  assert (Hi : (i < List.length args)%nat) by (apply nth_error_Some; congruence).
  split; [|split; [apply parse_expr_returns | intros; eapply parse_expr_end; eassumption]].
  destruct fuel as [|fuel]; [lia|].
  rewrite parse_loop_step, Htok.
  destruct Hop as [-> | ->]; cbn [classify String.eqb Ascii.eqb Bool.eqb];
    apply (nested_to_end fuel args actions i (fun subexpr => And expr (Not subexpr)));
    lia.
Qed.


(** C3.  Whenever the scan of [parse_expr] stands on a [-or] or [-o]
    (position [i], [expr] accumulated so far), the whole remainder
    [args[i+1:]] is parsed by a nested [parse_expr], which returns on
    every remainder and consumes it to its end, and the scan ends at the
    end of the list with [Or expr subexpr]: the right operand is the rest
    of the stream, not the next term. *)
Theorem disjunction_parses_remainder (fuel : nat) (args : list string)
    (expr : Expr) (actions : list action) (i : nat) (tok : string) :
  nth_error args i = Some tok ->
  tok = "-or" \/ tok = "-o" ->
  (List.length args - i < fuel)%nat ->
  parse_loop os fuel args expr actions i =
    match parse_expr os (skipn (i + 1) args) with
    | Some (Ok (subexpr, skip)) => Some (Ok (Or expr subexpr, List.length args))
    | Some (Raise e) => Some (Raise e)
    | Some (SysExit c) => Some (SysExit c)
    | None => None
    end /\
  (exists r, parse_expr os (skipn (i + 1) args) = Some r) /\
  (forall subexpr skip,
     parse_expr os (skipn (i + 1) args) = Some (Ok (subexpr, skip)) ->
     skip = List.length (skipn (i + 1) args)).
Proof.
  intros Htok Hop Hfuel.
  assert (Hi : (i < List.length args)%nat) by (apply nth_error_Some; congruence).
  split; [|split; [apply parse_expr_returns | intros; eapply parse_expr_end; eassumption]].
  destruct fuel as [|fuel]; [lia|].
  rewrite parse_loop_step, Htok.
  destruct Hop as [-> | ->]; cbn [classify String.eqb Ascii.eqb Bool.eqb orb];
    apply (nested_to_end fuel args actions i (fun subexpr => Or expr subexpr));
    lia.
Qed.


(** C8.  Whenever the scan of [parse_expr] stands on a token that is not
    a recognized test, action, operator, parenthesis or informational
    flag, it goes on from the next position with the same accumulated
    predicate and the same action: one token is consumed and nothing
    else changes.  The loop of [main] that selects the action passes
    over such a token as well. *)
Theorem unknown_token_skipped (fuel : nat) (args : list string)
    (expr : Expr) (actions : list action) (i : nat) (tok : string) :
  nth_error args i = Some tok ->
  ~ In tok recognized_tokens ->
  (List.length args - i < fuel)%nat ->
  parse_loop os fuel args expr actions i =
    parse_loop os fuel args expr actions (i + 1) /\
  forall (acts : list action) (rest : list string),
    select_actions acts (tok :: rest) = select_actions acts rest.
Proof.
  intros Htok Hun Hfuel.
  assert (Hi : (i < List.length args)%nat) by (apply nth_error_Some; congruence).
  split.
  - destruct fuel as [|fuel]; [lia|].
    rewrite parse_loop_step, Htok, (classify_unknown tok Hun).
    symmetry. apply parse_loop_more. lia.
  - intros acts rest. simpl.
    destruct (String.eqb_spec tok "-print") as [E|_];
      [exfalso; apply Hun; rewrite E; in_tokens|].
    destruct (String.eqb_spec tok "-print0") as [E|_];
      [exfalso; apply Hun; rewrite E; in_tokens|].
    destruct (String.eqb_spec tok "-delete") as [E|_];
      [exfalso; apply Hun; rewrite E; in_tokens|].
    reflexivity.
Qed.

Lemma not_recognized_depth : ~ In "-maxdepth" recognized_tokens.
Proof.
  unfold recognized_tokens, test_flags. simpl.
  intros H. repeat (destruct H as [H | H]; [discriminate H|]). exact H.
Qed.


End Parser.

Lemma unknown_token_skipped_witness :
  Pyfind.parse_loop (os_at 0) 4 ["-maxdepth"; "1"; "-true"]
    Pyfind.TrueExpr [Pyfind.action_print] 0 =
  Pyfind.parse_loop (os_at 0) 4 ["-maxdepth"; "1"; "-true"]
    Pyfind.TrueExpr [Pyfind.action_print] 1.
Proof.
  exact (proj1 (unknown_token_skipped (os_at 0) 4 ["-maxdepth"; "1"; "-true"]
                  Pyfind.TrueExpr [Pyfind.action_print] 0 "-maxdepth" eq_refl
                  not_recognized_depth ltac:(simpl; lia))).
Defined.

Lemma disjunction_parses_remainder_witness :
  Pyfind.parse_loop (os_at 0) 6 ["-false"; "-o"; "-true"; "-name"; "a"]
    (Pyfind.And Pyfind.TrueExpr Pyfind.FalseExpr) [Pyfind.action_print] 1 =
    Some (Ok (Pyfind.Or (Pyfind.And Pyfind.TrueExpr Pyfind.FalseExpr)
                (Pyfind.And (Pyfind.And Pyfind.TrueExpr Pyfind.TrueExpr)
                   (Pyfind.Name "a")), 5%nat)).
Proof.
  exact (proj1 (disjunction_parses_remainder (os_at 0) 6
                  ["-false"; "-o"; "-true"; "-name"; "a"]
                  (Pyfind.And Pyfind.TrueExpr Pyfind.FalseExpr) [Pyfind.action_print]
                  1 "-o" eq_refl (or_intror eq_refl) ltac:(simpl; lia))).
Defined.

Lemma negation_parses_remainder_witness :
  Pyfind.parse_loop (os_at 0) 5 ["-true"; "!"; "-name"; "a"]
    (Pyfind.And Pyfind.TrueExpr Pyfind.TrueExpr) [Pyfind.action_print] 1 =
    Some (Ok (Pyfind.And (Pyfind.And Pyfind.TrueExpr Pyfind.TrueExpr)
                (Pyfind.Not (Pyfind.And Pyfind.TrueExpr (Pyfind.Name "a"))), 4%nat)).
Proof.
  exact (proj1 (negation_parses_remainder (os_at 0) 5 ["-true"; "!"; "-name"; "a"]
                  (Pyfind.And Pyfind.TrueExpr Pyfind.TrueExpr) [Pyfind.action_print]
                  1 "!" eq_refl (or_introl eq_refl) ltac:(simpl; lia))).
Defined.

(** ** Arguments of the test flags (C7, C4) *)

Section TestArguments.

Import Pyfind.

Variable os : OS.

(** A failure of [parse_expr] ends the run before the walk starts. *)
Lemma main_parse_failure (fs : string -> option node) (argv : list string) (e : exn) :
  parse_expr os (snd (split_paths argv)) = Some (Raise e) ->
  main os fs argv = Some (failed (Raise e)).
Proof.
  unfold main. destruct (split_paths argv) as [paths0 expr_args]. simpl.
  now intros ->.
Qed.

(** C7, as the code has it.  When the scan of [parse_expr] stands on a
    test flag that is the last token of the list, [args[i+1]] raises
    [IndexError]: the scan ends with that exception, there is no check
    of the argument count and no message of the program's own.  The
    exception leaves [main] before the walk starts: no directory is
    visited. *)
Theorem missing_argument_raises_index_error (fuel : nat) (args : list string)
    (expr : Expr) (actions : list action) (i : nat) (tok : string) :
  nth_error args i = Some tok ->
  In tok test_flags ->
  (i + 1 = List.length args)%nat ->
  (0 < fuel)%nat ->
  parse_loop os fuel args expr actions i = Some (Raise IndexError) /\
  forall (fs : string -> option node) (argv : list string),
    parse_expr os (snd (split_paths argv)) = Some (Raise IndexError) ->
    main os fs argv = Some (mk_run [] (Raise IndexError)).
Proof.
  intros Htok Htest Hlast Hfuel. split.
  - destruct fuel as [|fuel]; [lia|].
    rewrite parse_loop_step, Htok.
    destruct (classify_test os tok Htest) as [init ->].
    unfold next_arg.
    replace (nth_error args (i + 1)) with (@None string); [reflexivity|].
    symmetry. apply nth_error_None. lia.
  - intros fs argv. apply main_parse_failure.
Qed.


(** The letters [Type.__call__] knows. *)
Definition type_kinds : list string := ["f"; "d"; "l"; "b"; "c"; "p"; "s"].

(** The part of a numeric argument that [n_compare] hands to [int]. *)
Definition numeral_of (nstr : string) : string :=
  if startswith nstr "+" || startswith nstr "-" then tail nstr else nstr.

Lemma n_compare_malformed (v : Z) (nstr : string) :
  int (numeral_of nstr) = Raise ValueError ->
  n_compare v nstr = Raise ValueError.
Proof.
  unfold n_compare, numeral_of.
  destruct (startswith nstr "+"); simpl; [now intros ->|].
  destruct (startswith nstr "-"); simpl; now intros ->.
Qed.

Lemma type_test_unknown (t : string) (mode : Z) :
  ~ In t type_kinds -> type_test t mode = false.
Proof.
  intros H. unfold type_test.
  repeat match goal with
         | |- context [?a ==s ?b] =>
             destruct (String.eqb_spec a b) as [E|_];
             [exfalso; apply H; rewrite E; unfold type_kinds; simpl; tauto|]
         end.
  reflexivity.
Qed.

(** C4, as the code has it.  Whenever the scan of [parse_expr] stands on
    [-size] or [-type] with an argument [a] after it, the predicate is
    built with [a] as given, whatever [a] is, and the scan goes on two
    tokens further: construction never fails.  A [Type] predicate with a
    letter it does not know is false of every entry, and raises nothing.
    A [Size] predicate whose argument is no integer literal raises
    [ValueError] when it is evaluated against an entry. *)
Theorem size_and_type_checked_when_evaluated (fuel : nat) (args : list string)
    (expr : Expr) (actions : list action) (i : nat) (a : string) :
  nth_error args (i + 1) = Some a ->
  (List.length args - i < fuel)%nat ->
  (nth_error args i = Some "-size" ->
   parse_loop os fuel args expr actions i =
     parse_loop os fuel args (And expr (Size a)) actions (i + 2)) /\
  (nth_error args i = Some "-type" ->
   parse_loop os fuel args expr actions i =
     parse_loop os fuel args (And expr (Type_ a)) actions (i + 2)) /\
  (~ In a type_kinds ->
   forall path st k, eval os (Type_ a) path st k = (Ok false, k)) /\
  (int (numeral_of a) = Raise ValueError ->
   forall path st k, eval os (Size a) path st k = (Raise ValueError, k)).
Proof.
  intros Ha Hfuel.
  assert (Hi : (i + 1 < List.length args)%nat) by (apply nth_error_Some; congruence).
  repeat split.
  - intros Htok. destruct fuel as [|fuel]; [lia|].
    rewrite parse_loop_step, Htok. cbn [classify String.eqb Ascii.eqb Bool.eqb].
    unfold next_arg. rewrite Ha. cbn [bind Size_init Type_init].
    symmetry. apply parse_loop_more. lia.
  - intros Htok. destruct fuel as [|fuel]; [lia|].
    rewrite parse_loop_step, Htok. cbn [classify String.eqb Ascii.eqb Bool.eqb].
    unfold next_arg. rewrite Ha. cbn [bind Size_init Type_init].
    symmetry. apply parse_loop_more. lia.
  - intros Hun path st k. simpl. unfold cret. now rewrite type_test_unknown.
  - intros Hbad path st k. simpl. unfold clift. now rewrite n_compare_malformed.
Qed.


End TestArguments.

Lemma size_and_type_checked_when_evaluated_witness :
  Pyfind.parse_loop (os_at 0) 3 ["-size"; "10k"] Pyfind.TrueExpr [Pyfind.action_print] 0 =
    Pyfind.parse_loop (os_at 0) 3 ["-size"; "10k"]
      (Pyfind.And Pyfind.TrueExpr (Pyfind.Size "10k")) [Pyfind.action_print] 2 /\
  Pyfind.eval (os_at 0) (Pyfind.Size "10k") "./file1.txt" st_file 0%nat =
    (Raise ValueError, 0%nat).
Proof.
  pose proof (size_and_type_checked_when_evaluated (os_at 0) 3 ["-size"; "10k"]
                Pyfind.TrueExpr [Pyfind.action_print] 0 "10k" eq_refl
                ltac:(simpl; lia)) as [H1 [_ [_ H4]]].
  split; [exact (H1 eq_refl) | exact (H4 eq_refl "./file1.txt" st_file 0%nat)].
Defined.

Lemma missing_argument_raises_index_error_witness :
  Pyfind.parse_loop (os_at 0) 3 ["-true"; "-size"]
    (Pyfind.And Pyfind.TrueExpr Pyfind.TrueExpr) [Pyfind.action_print] 1 =
    Some (Raise IndexError).
Proof.
  exact (proj1 (missing_argument_raises_index_error (os_at 0) 3 ["-true"; "-size"]
                  (Pyfind.And Pyfind.TrueExpr Pyfind.TrueExpr) [Pyfind.action_print]
                  1 "-size" eq_refl
                  ltac:(unfold test_flags; simpl; tauto) eq_refl ltac:(lia))).
Defined.

(** The tree of the specification's scenario: [file1.txt] and
    [dir1/file2.log], five bytes each. *)
Definition scenario : Pyfind.node :=
  Pyfind.Dir (Some st_dir)
    [("file1.txt", Pyfind.File (Some st_file));
     ("dir1", Pyfind.Dir (Some st_dir) [("file2.log", Pyfind.File (Some st_file))])].

Definition scenario_fs (top : string) : option Pyfind.node :=
  if top ==s "." then Some scenario else None.

(** C7 as stated fails: a test flag as the only argument ends the run
    with the index fault of [args[i+1]]. *)
Lemma missing_argument_counterexample :
  Pyfind.parse_expr (os_at 0) ["-name"] = Some (Raise IndexError) /\
  Pyfind.main (os_at 0) scenario_fs ["-name"] =
    Some (Pyfind.mk_run [] (Raise IndexError)).
Proof. split; reflexivity. Qed.

(** C4 as stated fails: [-size 10k] and [-type x] are accepted when the
    predicates are built; the size argument fails only when the
    predicate meets an entry, here after [./file1.txt] has been printed,
    and the unknown type letter never fails. *)
Lemma construction_counterexample :
  Pyfind.parse_expr (os_at 0) ["-type"; "f"; "-o"; "-size"; "10k"] =
    Some (Ok (Pyfind.Or (Pyfind.And Pyfind.TrueExpr (Pyfind.Type_ "f"))
                        (Pyfind.And Pyfind.TrueExpr (Pyfind.Size "10k")), 5%nat)) /\
  option_map (fun r => (Pyfind.stdout r, Pyfind.status r))
    (Pyfind.main (os_at 0) scenario_fs ["-type"; "f"; "-o"; "-size"; "10k"]) =
    Some ("./file1.txt" ++ String (ascii_of_nat 10) EmptyString, Raise ValueError) /\
  option_map (fun r => (Pyfind.stdout r, Pyfind.status r))
    (Pyfind.main (os_at 0) scenario_fs ["-type"; "x"]) =
    Some (EmptyString, Ok tt).
Proof. repeat split; reflexivity. Qed.

(** ** The walk *)

Section NodeInduction.

Import Pyfind.

Variable P : node -> Prop.
Hypothesis P_File : forall l, P (File l).
Hypothesis P_Dir :
  forall l entries, Forall (fun e => P (snd e)) entries -> P (Dir l entries).
Hypothesis P_DirLink : forall l, P (DirLink l).

(** Induction on a tree, with the hypothesis for every entry of a
    directory. *)
Fixpoint node_induction (n : node) : P n :=
  match n with
  | File l => P_File l
  | Dir l entries =>
      P_Dir l entries
        ((fix all (es : list (string * node)) : Forall (fun e => P (snd e)) es :=
            match es with
            | [] => Forall_nil _
            | e :: es' => Forall_cons e (node_induction (snd e)) (all es')
            end) entries)
  | DirLink l => P_DirLink l
  end.

End NodeInduction.

Section WalkFacts.

Import Pyfind.

Variables (os : OS) (expr : Expr) (actions : list action).
Variables (mindepth : Z) (maxdepth : option Z).

#[local] Arguments walk_dir : simpl never.

(** Every call the loop over the names makes is one of the actions,
    applied to the path of a listed name whose [lstat] succeeded. *)
Lemma walk_names_calls (root : string) (names : list (string * node)) :
  forall k c,
    In c (fst (fst (walk_names os expr actions root names k))) ->
    In (c_action c) actions /\
    exists name n,
      In (name, n) names /\ c_path c = os_path_join root name /\
      lstat n = Some (c_st c).
Proof.
  induction names as [|[name n] rest IH]; intros k c; simpl; [contradiction|].
  assert (Hrest : forall k',
             In c (fst (fst (walk_names os expr actions root rest k'))) ->
             In (c_action c) actions /\
             exists name0 n0,
               In (name0, n0) ((name, n) :: rest) /\
               c_path c = os_path_join root name0 /\ lstat n0 = Some (c_st c)).
  { intros k' Hc. destruct (IH k' c Hc) as [Ha [name0 [n0 [Hin Hp]]]].
    split; [exact Ha|]. exists name0, n0. split; [now right | exact Hp]. }
  destruct (lstat n) as [st|] eqn:Hst; [|apply Hrest].
  destruct (eval os expr (os_path_join root name) st k) as [[[]| |] k'];
    try (apply Hrest); try (simpl; contradiction).
  destruct (walk_names os expr actions root rest k') as [[calls r] k''] eqn:E.
  simpl. intros Hc. apply in_app_or in Hc as [Hc | Hc].
  - apply in_map_iff in Hc as [a [<- Ha]]. simpl.
    split; [exact Ha|]. exists name, n. split; [now left | now split].
  - apply (Hrest k'). now rewrite E.
Qed.

Variable top : string.

(** What holds of the record of every directory the walk lists: either
    no call was made for it, or its depth was neither below [mindepth]
    nor above [maxdepth] and the calls are those of the loop over its
    names. *)
Definition visit_shape (v : visit) : Prop :=
  v_top v = top /\
  exists entries,
    v_dirs v = map fst (dir_entries entries) /\
    v_files v = map fst (file_entries entries) /\
    (v_calls v = [] \/
     (below_mindepth mindepth (rel_depth top (v_root v)) = false /\
      above_maxdepth maxdepth (rel_depth top (v_root v)) = false /\
      exists k,
        v_calls v =
          fst (fst (walk_names os expr actions (v_root v)
                      (file_entries entries ++ dir_entries entries) k)))).

Lemma descend_shape (root : string) (entries : list (string * node)) :
  Forall (fun e => forall root k,
            Forall visit_shape
              (fst (fst (walk_dir os expr actions mindepth maxdepth top root (snd e) k))))
         entries ->
  forall k,
    Forall visit_shape
      (fst (fst (descend os expr actions mindepth maxdepth top root entries k))).
Proof.
  induction 1 as [|[name child] es Hchild _ IH]; intros k; simpl; [constructor|].
  destruct child as [l|l es'|l]; try apply IH.
  cbn [snd] in Hchild. specialize (Hchild (os_path_join root name) k).
  destruct (walk_dir os expr actions mindepth maxdepth top (os_path_join root name)
              (Dir l es') k) as [[vs r] k'].
  simpl in Hchild.
  destruct r as [u| |]; try exact Hchild.
  specialize (IH k').
  destruct (descend os expr actions mindepth maxdepth top root es k') as [[vs' r'] k''].
  simpl in IH |- *. apply Forall_app. now split.
Qed.

(** The equation of [walk_dir] on a directory. *)
Lemma walk_dir_Dir (root : string) (l : option stat_result)
    (entries : list (string * node)) (k : nat) :
  walk_dir os expr actions mindepth maxdepth top root (Dir l entries) k =
    let dirs := map fst (dir_entries entries) in
    let files := map fst (file_entries entries) in
    if below_mindepth mindepth (rel_depth top root) then
      let '(vs, r, k') := descend os expr actions mindepth maxdepth top root entries k in
      (mk_visit top root dirs files [] :: vs, r, k')
    else if above_maxdepth maxdepth (rel_depth top root) then
      ([mk_visit top root dirs files []], Ok tt, k)
    else
      match walk_names os expr actions root
              (file_entries entries ++ dir_entries entries)%list k with
      | (calls, Ok _, k') =>
          let '(vs, r, k'') := descend os expr actions mindepth maxdepth top root entries k' in
          (mk_visit top root dirs files calls :: vs, r, k'')
      | (calls, Raise e, k') => ([mk_visit top root dirs files calls], Raise e, k')
      | (calls, SysExit c, k') => ([mk_visit top root dirs files calls], SysExit c, k')
      end.
Proof. reflexivity. Qed.

Lemma walk_dir_shape (n : node) :
  forall root k,
    Forall visit_shape
      (fst (fst (walk_dir os expr actions mindepth maxdepth top root n k))).
Proof.
  induction n as [l|l entries IH|l] using node_induction; intros root k;
    try (simpl; constructor).
  rewrite walk_dir_Dir. cbv zeta.
  pose proof (descend_shape root entries IH) as Hdesc.
  assert (Hempty : visit_shape
            (mk_visit top root (map fst (dir_entries entries))
               (map fst (file_entries entries)) [])).
  { split; [reflexivity|]. exists entries. simpl. auto. }
  destruct (below_mindepth mindepth (rel_depth top root)) eqn:Hmin.
  - specialize (Hdesc k).
    destruct (descend os expr actions mindepth maxdepth top root entries k)
      as [[vs r] k'].
    simpl in *. now constructor.
  - destruct (above_maxdepth maxdepth (rel_depth top root)) eqn:Hmax.
    + simpl. now constructor.
    + destruct (walk_names os expr actions root
                  (file_entries entries ++ dir_entries entries) k)
        as [[calls r] k'] eqn:E.
      assert (Hcalls : visit_shape
                (mk_visit top root (map fst (dir_entries entries))
                   (map fst (file_entries entries)) calls)).
      { split; [reflexivity|]. exists entries. simpl.
        split; [reflexivity|]. split; [reflexivity|]. right.
        split; [exact Hmin|]. split; [exact Hmax|].
        exists k. now rewrite E. }
      destruct r as [u| |]; simpl; try (constructor; [exact Hcalls | constructor]).
      specialize (Hdesc k').
      destruct (descend os expr actions mindepth maxdepth top root entries k')
        as [[vs r'] k''].
      simpl in *. now constructor.
Qed.

End WalkFacts.

Section WalkBounds.

Import Pyfind.

Variables (os : OS) (fs : string -> option node).
Variables (expr : Expr) (actions : list action).
Variables (mindepth : Z) (maxdepth : option Z).

#[local] Arguments walk_dir : simpl never.

Lemma walk_shape (paths : list string) :
  forall k v,
    In v (fst (fst (walk os fs paths expr actions mindepth maxdepth k))) ->
    In (v_top v) paths /\
    visit_shape os expr actions mindepth maxdepth (v_top v) v.
Proof.
  induction paths as [|top rest IH]; intros k v; simpl; [contradiction|].
  assert (Hrest : forall k',
             In v (fst (fst (walk os fs rest expr actions mindepth maxdepth k'))) ->
             (top = v_top v \/ In (v_top v) rest) /\
             visit_shape os expr actions mindepth maxdepth (v_top v) v).
  { intros k' Hv. destruct (IH k' v Hv) as [Hin Hs]. split; [now right | exact Hs]. }
  destruct (fs top) as [n|]; [|apply Hrest].
  pose proof (walk_dir_shape os expr actions mindepth maxdepth top n top k) as Hn.
  assert (Htop : forall vs, Forall (visit_shape os expr actions mindepth maxdepth top) vs ->
             In v vs ->
             (top = v_top v \/ In (v_top v) rest) /\
             visit_shape os expr actions mindepth maxdepth (v_top v) v).
  { intros vs Hall Hv. rewrite Forall_forall in Hall. specialize (Hall v Hv).
    destruct Hall as [Ht Hs]. split; [now left|].
    rewrite Ht. split; [exact Ht | exact Hs]. }
  destruct (walk_dir os expr actions mindepth maxdepth top top n k) as [[vs r] k'].
  simpl in Hn.
  destruct r as [u| |]; simpl; try (apply Htop; exact Hn).
  destruct (walk os fs rest expr actions mindepth maxdepth k') as [[vs' r'] k''] eqn:E.
  simpl. intros Hv. apply in_app_or in Hv as [Hv | Hv].
  - now apply (Htop vs).
  - apply (Hrest k'). now rewrite E.
Qed.

End WalkBounds.

Lemma count_nonneg (c : ascii) (s : string) : 0 <= count c s.
Proof.
  induction s as [|d r IH]; simpl; [lia|].
  destruct (Ascii.eqb d c); lia.
Qed.

(** ** Depth bounds (C5) *)

(** C5, as the code has it.  In a walk with bounds [m] and [M], every
    action call is made for a name listed in a directory whose depth [d]
    (the separators between the traversal root and that directory)
    satisfies [m <= d <= M].  A directory deeper than [M] that is not
    above the [mindepth] test (that is, [m] is zero or [m <= d]) has its
    sub-directory list emptied: nothing is emitted for it and the walk
    does not descend from it.  A directory with [d < m], [m] not zero,
    emits nothing and is descended into, whether or not [d] exceeds
    [M]: the [mindepth] test comes first. *)
Theorem depth_bounds_of_walk (os : OS) (expr : Pyfind.Expr)
    (actions : list Pyfind.action) (m M : Z) :
  (forall (fs : string -> option Pyfind.node) (paths : list string) (k : nat)
          (v : Pyfind.visit) (c : Pyfind.call),
     In v (fst (fst (Pyfind.walk os fs paths expr actions m (Some M) k))) ->
     In c (Pyfind.v_calls v) ->
     In (Pyfind.v_top v) paths /\
     m <= Pyfind.rel_depth (Pyfind.v_top v) (Pyfind.v_root v) <= M /\
     exists name,
       In name (Pyfind.v_files v ++ Pyfind.v_dirs v)%list /\
       Pyfind.c_path c = os_path_join (Pyfind.v_root v) name) /\
  (forall (top root : string) l entries (k : nat),
     M < Pyfind.rel_depth top root ->
     m = 0 \/ m <= Pyfind.rel_depth top root ->
     Pyfind.walk_dir os expr actions m (Some M) top root (Pyfind.Dir l entries) k =
       ([Pyfind.mk_visit top root (map fst (Pyfind.dir_entries entries))
           (map fst (Pyfind.file_entries entries)) []], Ok tt, k)) /\
  (forall (top root : string) l entries (k : nat),
     m <> 0 ->
     Pyfind.rel_depth top root < m ->
     Pyfind.walk_dir os expr actions m (Some M) top root (Pyfind.Dir l entries) k =
       let '(vs, r, k') :=
         Pyfind.descend os expr actions m (Some M) top root entries k in
       (Pyfind.mk_visit top root (map fst (Pyfind.dir_entries entries))
          (map fst (Pyfind.file_entries entries)) [] :: vs, r, k')).
Proof.
  split; [|split].
  - intros fs paths k v c Hv Hc.
    destruct (walk_shape os fs expr actions m (Some M) paths k v Hv)
      as [Htop [_ [entries [Hd [Hf Hcalls]]]]].
    split; [exact Htop|].
    destruct Hcalls as [Hnil | [Hmin [Hmax [k0 Hk0]]]];
      [rewrite Hnil in Hc; contradiction|].
    split.
    + pose proof (count_nonneg "/"
                    (drop (String.length (Pyfind.v_top v)) (Pyfind.v_root v))) as H0.
      unfold Pyfind.below_mindepth, Pyfind.above_maxdepth in Hmin, Hmax.
      unfold Pyfind.rel_depth in *.
      destruct (Z.eqb_spec m 0), (Z.ltb_spec
        (count "/" (drop (String.length (Pyfind.v_top v)) (Pyfind.v_root v))) m);
        simpl in Hmin; try discriminate; rewrite Z.gtb_ltb in Hmax;
        apply Z.ltb_ge in Hmax; lia.
    + rewrite Hk0 in Hc.
      apply walk_names_calls in Hc as [_ [name [n [Hin [Hp _]]]]].
      exists name. split; [|exact Hp].
      rewrite Hf, Hd, <- map_app. apply (in_map fst) in Hin. exact Hin.
  - intros top root l entries k HM Hm.
    rewrite walk_dir_Dir. cbv zeta.
    unfold Pyfind.below_mindepth, Pyfind.above_maxdepth.
    replace (negb (m =? 0) && (Pyfind.rel_depth top root <? m)) with false.
    + replace (Pyfind.rel_depth top root >? M) with true; [reflexivity|].
      symmetry. rewrite Z.gtb_ltb. apply Z.ltb_lt. exact HM.
    + symmetry. destruct Hm as [-> | Hm]; [reflexivity|].
      apply andb_false_intro2. apply Z.ltb_ge. exact Hm.
  - intros top root l entries k Hm0 Hlt.
    rewrite walk_dir_Dir. cbv zeta.
    unfold Pyfind.below_mindepth.
    replace (negb (m =? 0) && (Pyfind.rel_depth top root <? m)) with true;
      [reflexivity|].
    symmetry. apply andb_true_intro. split.
    + apply negb_true_iff. apply Z.eqb_neq. exact Hm0.
    + apply Z.ltb_lt. exact Hlt.
Qed.

(** A chain of three directories below [a]. *)
Definition chain_fs (top : string) : option Pyfind.node :=
  if top ==s "a" then
    Some (Pyfind.Dir (Some st_dir)
            [("b", Pyfind.Dir (Some st_dir)
                     [("c", Pyfind.Dir (Some st_dir)
                              [("d", Pyfind.Dir (Some st_dir) [])])])])
  else None.

(** C5 as stated fails: with [-mindepth 2 -maxdepth 0] the directory
    [a/b] has depth 1, which exceeds the maximum 0, and the walk still
    descends from it into [a/b/c]; only there, at depth 2, is the
    sub-directory list emptied ([a/b/c/d] is not listed). *)
Lemma depth_pruning_counterexample :
  option_map
    (fun r => map (fun v => (Pyfind.v_root v,
                             Pyfind.rel_depth (Pyfind.v_top v) (Pyfind.v_root v)))
                  (Pyfind.visits r))
    (Pyfind.main (os_at 0) chain_fs ["a"; "-mindepth"; "2"; "-maxdepth"; "0"]) =
  Some [("a", 0); ("a/b", 1); ("a/b/c", 2)].
Proof. reflexivity. Qed.

(** ** The action of a run (C6) *)

(** The action an action flag names. *)
Definition flag_action (tok : string) : option Pyfind.action :=
  if tok ==s "-print" then Some Pyfind.action_print
  else if tok ==s "-print0" then Some Pyfind.action_print0
  else if tok ==s "-delete" then Some Pyfind.action_delete
  else None.

(** The action named by the last action flag of a list, if there is
    one. *)
Fixpoint last_action_flag (args : list string) : option Pyfind.action :=
  match args with
  | [] => None
  | tok :: rest =>
      match last_action_flag rest with
      | Some a => Some a
      | None => flag_action tok
      end
  end.

Definition active_action (expr_args : list string) : Pyfind.action :=
  match last_action_flag expr_args with
  | Some a => a
  | None => Pyfind.action_print
  end.

Lemma select_actions_last (args : list string) :
  forall acts,
    Pyfind.select_actions acts args =
      match last_action_flag args with
      | Some a => [a]
      | None => acts
      end.
Proof.
  induction args as [|tok rest IH]; intros acts; simpl; [reflexivity|].
  rewrite IH. destruct (last_action_flag rest); [reflexivity|].
  unfold flag_action.
  destruct (tok ==s "-print"); [reflexivity|].
  destruct (tok ==s "-print0"); [reflexivity|].
  destruct (tok ==s "-delete"); reflexivity.
Qed.

Lemma classify_action (os : OS) (tok : string) (a : Pyfind.action) :
  flag_action tok = Some a -> classify os tok = is_action a.
Proof.
  unfold flag_action.
  destruct (String.eqb_spec tok "-print") as [->|_];
    [intros [= <-]; reflexivity|].
  destruct (String.eqb_spec tok "-print0") as [->|_];
    [intros [= <-]; reflexivity|].
  destruct (String.eqb_spec tok "-delete") as [->|_];
    [intros [= <-]; reflexivity | discriminate].
Qed.

(** C6.  The loop of [main] over the expression arguments leaves exactly
    one action: the one named by the last action flag among them, or
    [action_print] when there is none.  Every action call of the run is
    a call of that action.  Where the scan of [parse_expr] stands on an
    action flag, it goes on from the next token with the accumulated
    predicate unchanged: the flag consumes only itself. *)
Theorem one_action_last_flag_wins (os : OS) (argv : list string) :
  let expr_args := snd (Pyfind.split_paths argv) in
  Pyfind.select_actions [Pyfind.action_print] expr_args = [active_action expr_args] /\
  (forall (fs : string -> option Pyfind.node) (r : Pyfind.run) (c : Pyfind.call),
     Pyfind.main os fs argv = Some r ->
     In c (Pyfind.calls_of r) ->
     Pyfind.c_action c = active_action expr_args) /\
  (forall (fuel : nat) (args : list string) (expr : Pyfind.Expr)
          (actions : list Pyfind.action) (i : nat) (tok : string) (a : Pyfind.action),
     nth_error args i = Some tok ->
     flag_action tok = Some a ->
     (List.length args - i < fuel)%nat ->
     Pyfind.parse_loop os fuel args expr actions i =
       Pyfind.parse_loop os fuel args expr [a] (i + 1)).
Proof.
  cbv zeta.
  assert (Hsel : Pyfind.select_actions [Pyfind.action_print] (snd (Pyfind.split_paths argv)) =
                 [active_action (snd (Pyfind.split_paths argv))]).
  { rewrite select_actions_last. unfold active_action.
    now destruct (last_action_flag (snd (Pyfind.split_paths argv))). }
  split; [exact Hsel|]. split.
  - intros fs r c Hmain Hc. unfold Pyfind.main in Hmain.
    destruct (Pyfind.split_paths argv) as [paths0 expr_args]. simpl in Hsel |- *.
    destruct (Pyfind.parse_expr os expr_args) as [[[expr j]| |]|];
      try discriminate;
      try (injection Hmain as <-; simpl in Hc; contradiction).
    destruct (Pyfind.depth_option "-mindepth" expr_args) as [mind| |];
      try (injection Hmain as <-; simpl in Hc; contradiction).
    destruct (Pyfind.depth_option "-maxdepth" expr_args) as [maxdepth| |];
      try (injection Hmain as <-; simpl in Hc; contradiction).
    rewrite Hsel in Hmain.
    match type of Hmain with
    | context [Pyfind.walk ?o ?f ?p ?e ?a ?mi ?ma ?k] =>
        pose proof (walk_shape o f e a mi ma p k) as Hshape;
        destruct (Pyfind.walk o f p e a mi ma k) as [[vs st] k']
    end.
    injection Hmain as <-. unfold Pyfind.calls_of in Hc. simpl in Hc, Hshape.
    apply in_flat_map in Hc as [v [Hv Hc]].
    destruct (Hshape v Hv) as [_ [_ [entries [_ [_ Hcalls]]]]].
    destruct Hcalls as [Hnil | [_ [_ [k0 Hk0]]]];
      [rewrite Hnil in Hc; contradiction|].
    rewrite Hk0 in Hc. apply walk_names_calls in Hc as [Ha _].
    destruct Ha as [<- | []]. reflexivity.
  - intros fuel args expr actions i tok a Htok Hflag Hfuel.
    assert (Hi : (i < List.length args)%nat) by (apply nth_error_Some; congruence).
    destruct fuel as [|fuel]; [lia|].
    rewrite parse_loop_step, Htok, (classify_action os tok a Hflag).
    symmetry. apply parse_loop_more. lia.
Qed.

(** ** Two runs on one tree (C9) *)

(** The same system with another clock. *)
Definition with_clock (os : OS) (clock : nat -> Z) : OS :=
  mk_OS (fnmatch os) (getpwnam os) (getgrnam os) clock.

Definition age_flags : list string := ["-mtime"; "-atime"; "-ctime"].

(** No age predicate occurs in the expression. *)
Fixpoint clock_free (e : Pyfind.Expr) : bool :=
  match e with
  | Pyfind.And l r => clock_free l && clock_free r
  | Pyfind.Or l r => clock_free l && clock_free r
  | Pyfind.Not x => clock_free x
  | Pyfind.Mtime _ => false
  | Pyfind.Atime _ => false
  | Pyfind.Ctime _ => false
  | _ => true
  end.

Lemma skipn_In {A : Type} (n : nat) :
  forall (l : list A) (x : A), In x (skipn n l) -> In x l.
Proof.
  induction n as [|n IH]; intros [|y l] x; simpl; auto.
Qed.

Section Clock.

Import Pyfind.

Variables (os : OS) (clock : nat -> Z).

#[local] Arguments walk_dir : simpl never.

Lemma eval_with_clock (e : Expr) :
  clock_free e = true ->
  forall path st k, eval (with_clock os clock) e path st k = eval os e path st k.
Proof.
  induction e; simpl; intros H path st k; try reflexivity; try discriminate.
  - apply andb_prop in H as [Hl Hr]. unfold cbind.
    rewrite (IHe1 Hl). destruct (eval os e1 path st k) as [[[]| |] k'];
      try reflexivity. now apply IHe2.
  - apply andb_prop in H as [Hl Hr]. unfold cbind.
    rewrite (IHe1 Hl). destruct (eval os e1 path st k) as [[[]| |] k'];
      try reflexivity. now apply IHe2.
  - unfold cbind. now rewrite (IHe H).
Qed.

Lemma parse_loop_with_clock (fuel : nat) :
  forall args expr actions i,
    parse_loop (with_clock os clock) fuel args expr actions i =
    parse_loop os fuel args expr actions i.
Proof.
  induction fuel as [|fuel IH]; intros args expr actions i; [reflexivity|].
  rewrite !parse_loop_step.
  destruct (nth_error args i) as [arg|]; [|reflexivity].
  change (classify (with_clock os clock) arg) with (classify os arg).
  assert (Hnested : forall combine,
             nested_call (with_clock os clock) fuel args actions i combine =
             nested_call os fuel args actions i combine).
  { intros combine. unfold nested_call. rewrite IH.
    destruct (parse_loop os fuel (skipn (i + 1) args) TrueExpr [action_print] 0)
      as [[[subexpr skip]| |]|]; try reflexivity. apply IH. }
  destruct (classify os arg); try apply IH; try apply Hnested; try reflexivity.
  destruct (bind (next_arg args i) init); try reflexivity. apply IH.
Qed.

Lemma User_init_clock_free (a : string) (p : Expr) :
  User_init os a = Ok p -> clock_free p = true.
Proof.
  unfold User_init.
  destruct (isdigit a); [destruct (int a); simpl; intros [= <-]; reflexivity|].
  destruct (getpwnam os a); intros [= <-]; reflexivity.
Qed.

Lemma Group_init_clock_free (a : string) (p : Expr) :
  Group_init os a = Ok p -> clock_free p = true.
Proof.
  unfold Group_init.
  destruct (isdigit a); [destruct (int a); simpl; intros [= <-]; reflexivity|].
  destruct (getgrnam os a); intros [= <-]; reflexivity.
Qed.

(** What a token other than an age flag adds to the predicate reads no
    clock. *)
Lemma classify_clock_free (arg : string) :
  ~ In arg age_flags ->
  match classify os arg with
  | is_test init => forall a p, init a = Ok p -> clock_free p = true
  | is_constant e => clock_free e = true
  | _ => True
  end.
Proof.
  intros Hage. unfold classify.
  repeat match goal with
         | |- context [arg ==s ?b] =>
             destruct (String.eqb_spec arg b) as [->|_];
             [cbn;
              first [ exact I
                    | reflexivity
                    | exfalso; apply Hage; unfold age_flags; simpl; tauto
                    | exact User_init_clock_free
                    | exact Group_init_clock_free
                    | intros a0 p [= <-]; reflexivity ] |]
         end.
  cbn. exact I.
Qed.

Lemma parse_loop_clock_free (fuel : nat) :
  forall args expr actions i e j,
    (forall tok, In tok age_flags -> ~ In tok args) ->
    clock_free expr = true ->
    parse_loop os fuel args expr actions i = Some (Ok (e, j)) ->
    clock_free e = true.
Proof.
  induction fuel as [|fuel IH]; intros args expr actions i e j Hargs Hexpr H;
    [discriminate|].
  rewrite parse_loop_step in H.
  destruct (nth_error args i) as [arg|] eqn:Harg; [|now inversion H; subst].
  assert (Hage : ~ In arg age_flags).
  { intros Hin. apply (Hargs arg Hin). eapply nth_error_In. exact Harg. }
  pose proof (classify_clock_free arg Hage) as Hcls.
  assert (Hnested : forall combine,
             (forall sub, clock_free sub = true -> clock_free (combine sub) = true) ->
             nested_call os fuel args actions i combine = Some (Ok (e, j)) ->
             clock_free e = true).
  { intros combine Hcomb. unfold nested_call.
    destruct (parse_loop os fuel (skipn (i + 1) args) TrueExpr [action_print] 0)
      as [[[subexpr skip]| |]|] eqn:E; try discriminate.
    apply IH in E; [|intros tok Hin Hsk; apply (Hargs tok Hin);
                     eapply skipn_In; exact Hsk | reflexivity].
    apply IH; [exact Hargs | now apply Hcomb]. }
  destruct (classify os arg);
    try (eapply IH; [exact Hargs | exact Hexpr | exact H]); try discriminate.
  - destruct (next_arg args i) as [a| |]; simpl in H; try discriminate.
    destruct (init a) as [p| |] eqn:Hp; try discriminate.
    eapply IH; [exact Hargs | | exact H]. simpl.
    now rewrite Hexpr, (Hcls a p Hp).
  - eapply IH; [exact Hargs | | exact H]. simpl. now rewrite Hexpr, Hcls.
  - eapply Hnested; [|exact H]. intros sub Hsub. simpl. now rewrite Hexpr, Hsub.
  - eapply Hnested; [|exact H]. intros sub Hsub. simpl. now rewrite Hexpr, Hsub.
Qed.

Variables (expr : Expr) (actions : list action).
Variables (mindepth : Z) (maxdepth : option Z).

Hypothesis expr_clock_free : clock_free expr = true.

Lemma walk_names_with_clock (root : string) (names : list (string * node)) :
  forall k,
    walk_names (with_clock os clock) expr actions root names k =
    walk_names os expr actions root names k.
Proof.
  induction names as [|[name n] rest IH]; intros k; simpl; [reflexivity|].
  destruct (lstat n) as [st|]; [|apply IH].
  rewrite (eval_with_clock expr expr_clock_free).
  destruct (eval os expr (os_path_join root name) st k) as [[[]| |] k'];
    try reflexivity; now rewrite IH.
Qed.

Lemma descend_with_clock (top root : string) (entries : list (string * node)) :
  Forall (fun e => forall root k,
            walk_dir (with_clock os clock) expr actions mindepth maxdepth top root (snd e) k =
            walk_dir os expr actions mindepth maxdepth top root (snd e) k)
         entries ->
  forall k,
    descend (with_clock os clock) expr actions mindepth maxdepth top root entries k =
    descend os expr actions mindepth maxdepth top root entries k.
Proof.
  induction 1 as [|[name child] es Hchild _ IH]; intros k; simpl; [reflexivity|].
  destruct child as [l|l es'|l]; try apply IH.
  cbn [snd] in Hchild. rewrite Hchild.
  destruct (walk_dir os expr actions mindepth maxdepth top (os_path_join root name)
              (Dir l es') k) as [[vs [u| |]] k']; try reflexivity.
  now rewrite IH.
Qed.

Lemma walk_dir_with_clock (top : string) (n : node) :
  forall root k,
    walk_dir (with_clock os clock) expr actions mindepth maxdepth top root n k =
    walk_dir os expr actions mindepth maxdepth top root n k.
Proof.
  induction n as [l|l entries IH|l] using node_induction; intros root k;
    try reflexivity.
  rewrite !walk_dir_Dir. cbv zeta.
  rewrite walk_names_with_clock.
  destruct (below_mindepth mindepth (rel_depth top root)).
  - now rewrite (descend_with_clock top root entries IH).
  - destruct (above_maxdepth maxdepth (rel_depth top root)); [reflexivity|].
    destruct (walk_names os expr actions root
                (file_entries entries ++ dir_entries entries) k)
      as [[calls [u| |]] k']; try reflexivity.
    now rewrite (descend_with_clock top root entries IH).
Qed.

Lemma walk_with_clock (fs : string -> option node) (paths : list string) :
  forall k,
    walk (with_clock os clock) fs paths expr actions mindepth maxdepth k =
    walk os fs paths expr actions mindepth maxdepth k.
Proof.
  induction paths as [|top rest IH]; intros k; simpl; [reflexivity|].
  destruct (fs top) as [n|]; [|apply IH].
  rewrite walk_dir_with_clock.
  destruct (walk_dir os expr actions mindepth maxdepth top top n k)
    as [[vs [u| |]] k']; try reflexivity.
  now rewrite IH.
Qed.

End Clock.

Lemma split_paths_In (argv : list string) (tok : string) :
  In tok (snd (Pyfind.split_paths argv)) -> In tok argv.
Proof.
  induction argv as [|a rest IH]; simpl; [exact (fun H => H)|].
  destruct (startswith a "-"); [exact (fun H => H)|].
  destruct (Pyfind.split_paths rest) as [paths expr_args]. simpl in *.
  intros H. right. now apply IH.
Qed.

Lemma main_with_clock (os : OS) (clock : nat -> Z)
    (fs : string -> option Pyfind.node) (argv : list string) :
  (forall tok, In tok age_flags -> ~ In tok argv) ->
  Pyfind.main (with_clock os clock) fs argv = Pyfind.main os fs argv.
Proof.
  intros Hage. unfold Pyfind.main.
  pose proof (split_paths_In argv) as Hin.
  destruct (Pyfind.split_paths argv) as [paths0 expr_args]. simpl in Hin.
  unfold Pyfind.parse_expr. rewrite parse_loop_with_clock.
  destruct (Pyfind.parse_loop os (S (List.length expr_args)) expr_args
              Pyfind.TrueExpr [Pyfind.action_print] 0)
    as [[[expr j]| |]|] eqn:E; try reflexivity.
  apply parse_loop_clock_free in E;
    [|intros tok Ht Hx; apply (Hage tok Ht); now apply Hin | reflexivity].
  destruct (Pyfind.depth_option "-mindepth" expr_args); try reflexivity.
  destruct (Pyfind.depth_option "-maxdepth" expr_args); try reflexivity.
  now rewrite walk_with_clock.
Qed.

(** C9, as the code has it.  For a fixed tree and an argument list whose
    action is [-print], the run is a function of the tree, the
    arguments, the user database and the clock; when none of [-mtime],
    [-atime], [-ctime] occurs among the arguments, it does not depend on
    the clock: two runs, whatever the clock shows in each, visit the same
    directories, make the same calls in the same order, end the same way
    and print the same text. *)
Theorem repeatable_without_age_tests (os : OS) (clock1 clock2 : nat -> Z)
    (fs : string -> option Pyfind.node) (argv : list string) :
  Pyfind.select_actions [Pyfind.action_print] (snd (Pyfind.split_paths argv)) =
    [Pyfind.action_print] ->
  (forall tok, In tok age_flags -> ~ In tok argv) ->
  Pyfind.main (with_clock os clock1) fs argv =
    Pyfind.main (with_clock os clock2) fs argv /\
  option_map Pyfind.stdout (Pyfind.main (with_clock os clock1) fs argv) =
    option_map Pyfind.stdout (Pyfind.main (with_clock os clock2) fs argv).
Proof.
  intros _ Hage.
  assert (H : Pyfind.main (with_clock os clock1) fs argv =
              Pyfind.main (with_clock os clock2) fs argv)
    by (now rewrite !main_with_clock).
  split; [exact H | now rewrite H].
Qed.

Definition nl : string := String (ascii_of_nat 10) EmptyString.

Lemma repeatable_without_age_tests_witness :
  option_map Pyfind.stdout
    (Pyfind.main (with_clock (os_at 0) (fun _ => 86399)) scenario_fs ["-type"; "f"; "-print"]) =
  option_map Pyfind.stdout
    (Pyfind.main (with_clock (os_at 0) (fun _ => 86400)) scenario_fs ["-type"; "f"; "-print"]).
Proof.
  refine (proj2 (repeatable_without_age_tests (os_at 0) (fun _ => 86399) (fun _ => 86400)
                   scenario_fs ["-type"; "f"; "-print"] eq_refl _)).
  unfold age_flags. simpl. intros tok [<- | [<- | [<- | []]]] H;
    repeat (destruct H as [H | H]; [discriminate H|]); exact H.
Defined.

(** C9 as stated fails: [-mtime 0 -print] on the same tree prints the
    three entries when the clock shows 86399 seconds past their time
    stamps and nothing one second later. *)
Lemma clock_counterexample :
  option_map Pyfind.stdout
    (Pyfind.main (os_at 86399) scenario_fs ["-mtime"; "0"; "-print"]) =
    Some ("./file1.txt" ++ nl ++ "./dir1" ++ nl ++ "./dir1/file2.log" ++ nl) /\
  option_map Pyfind.stdout
    (Pyfind.main (os_at 86400) scenario_fs ["-mtime"; "0"; "-print"]) =
    Some EmptyString.
Proof. split; reflexivity. Qed.

(** ** pfind: directories and the size filter (C10) *)

Section PfindNodeInduction.

Import Pfind.

Variable P : node -> Prop.
Hypothesis P_File : forall g, P (File g).
Hypothesis P_Dir :
  forall g entries, Forall (fun e => P (snd e)) entries -> P (Dir g entries).
Hypothesis P_DirLink : forall g, P (DirLink g).

Fixpoint pfind_node_induction (n : node) : P n :=
  match n with
  | File g => P_File g
  | Dir g entries =>
      P_Dir g entries
        ((fix all (es : list (string * node)) : Forall (fun e => P (snd e)) es :=
            match es with
            | [] => Forall_nil _
            | e :: es' => Forall_cons e (pfind_node_induction (snd e)) (all es')
            end) entries)
  | DirLink g => P_DirLink g
  end.

End PfindNodeInduction.

(** [below t names d n]: going down from the directory [t] through the
    directories [names], one finds the entry [d], which is the node
    [n]. *)
Inductive below : Pfind.node -> list string -> string -> Pfind.node -> Prop :=
| below_here (g : option Z) (entries : list (string * Pfind.node))
    (d : string) (n : Pfind.node) :
    In (d, n) entries -> below (Pfind.Dir g entries) [] d n
| below_there (g : option Z) (entries : list (string * Pfind.node))
    (name : string) (child : Pfind.node) (names : list string)
    (d : string) (n : Pfind.node) :
    In (name, child) entries -> below child names d n ->
    below (Pfind.Dir g entries) (name :: names) d n.

(** The path of that entry, as [os.walk] and [traverse] build it. *)
Definition path_below (root : string) (names : list string) (d : string) : string :=
  os_path_join (fold_left os_path_join names root) d.

Section PfindFacts.

Import Pfind.

Variables (os : OS) (name type_ size : option string).

#[local] Arguments traverse_dir : simpl never.

Lemma traverse_dir_Dir (dirpath : string) (g : option Z)
    (entries : list (string * node)) :
  traverse_dir os name type_ size dirpath (Dir g entries) =
    let ds := if type_in type_ "d" then yield_dirs os name dirpath (dir_entries entries)
              else [] in
    let '(fs, r) :=
      if type_in type_ "f" then yield_files os name size dirpath (file_entries entries)
      else ([], Ok tt) in
    match r with
    | Ok _ =>
        let '(ys, r') := descend os name type_ size dirpath entries in
        ((ds ++ fs ++ ys)%list, r')
    | _ => ((ds ++ fs)%list, r)
    end.
Proof. reflexivity. Qed.

Lemma yield_dirs_In (dirpath : string) (dirs : list (string * node))
    (d : string) (n : node) :
  In (d, n) dirs ->
  name_rejects os name d = false ->
  In (os_path_join dirpath d) (yield_dirs os name dirpath dirs).
Proof.
  intros Hin Hname. induction dirs as [|[d' n'] rest IH]; simpl; [contradiction|].
  destruct Hin as [[= -> ->] | Hin].
  - rewrite Hname. now left.
  - destruct (name_rejects os name d'); [now apply IH | right; now apply IH].
Qed.

(** When the descent ends normally, so did the traversal of every
    sub-directory, and what it yielded is part of what the descent
    yields. *)
Lemma descend_child (dirpath : string) (entries : list (string * node))
    (d : string) (g : option Z) (es : list (string * node)) :
  snd (descend os name type_ size dirpath entries) = Ok tt ->
  In (d, Dir g es) entries ->
  snd (traverse_dir os name type_ size (os_path_join dirpath d) (Dir g es)) = Ok tt /\
  incl (fst (traverse_dir os name type_ size (os_path_join dirpath d) (Dir g es)))
       (fst (descend os name type_ size dirpath entries)).
Proof.
  induction entries as [|[d' child] rest IH]; simpl; [contradiction|].
  intros Hok [[= -> ->] | Hin].
  - destruct (traverse_dir os name type_ size (os_path_join dirpath d) (Dir g es))
      as [ys [[]| |]]; simpl in *; try discriminate.
    destruct (descend os name type_ size dirpath rest) as [ys' r].
    simpl. split; [reflexivity | apply incl_appl, incl_refl].
  - destruct child as [g'|g' es'|g']; try (now apply IH).
    destruct (traverse_dir os name type_ size (os_path_join dirpath d') (Dir g' es'))
      as [ys [[]| |]]; simpl in *; try discriminate.
    destruct (descend os name type_ size dirpath rest) as [ys' r].
    simpl in *. destruct (IH Hok Hin) as [H1 H2].
    split; [exact H1 | now apply incl_appr].
Qed.

Lemma below_yielded (t : node) (names : list string) (d : string) (n : node) :
  below t names d n ->
  forall root,
    type_in type_ "d" = true ->
    snd (traverse_dir os name type_ size root t) = Ok tt ->
    is_dir n = true ->
    name_rejects os name d = false ->
    In (path_below root names d) (fst (traverse_dir os name type_ size root t)).
Proof.
  induction 1 as [g entries d n Hin | g entries nm child names d n Hin Hbelow IH];
    intros root Htype Hok Hdir Hname; rewrite traverse_dir_Dir in Hok |- *;
    cbv zeta in Hok |- *; rewrite Htype.
  - destruct (if type_in type_ "f"
              then yield_files os name size root (file_entries entries)
              else ([], Ok tt)) as [fs r].
    assert (Hds : In (path_below root [] d)
                    (yield_dirs os name root (dir_entries entries))).
    { apply (yield_dirs_In root _ d n); [|exact Hname].
      apply filter_In. split; [exact Hin | exact Hdir]. }
    destruct r as [u| |]; [|apply in_or_app; now left ..].
    destruct (descend os name type_ size root entries) as [ys r'].
    apply in_or_app. now left.
  - destruct (if type_in type_ "f"
              then yield_files os name size root (file_entries entries)
              else ([], Ok tt)) as [fs r].
    destruct r as [[]| |]; try discriminate.
    destruct (descend os name type_ size root entries) as [ys r'] eqn:E.
    simpl in Hok. subst r'.
    destruct child as [g'|g' es'|g']; try (inversion Hbelow; fail).
    destruct (descend_child root entries nm g' es') as [Hc Hincl];
      [now rewrite E | exact Hin |].
    rewrite E in Hincl. simpl in Hincl.
    apply in_or_app. right. apply in_or_app. right. apply Hincl.
    apply (IH (os_path_join root nm) Htype Hc Hdir Hname).
Qed.

End PfindFacts.

Section PfindDirectoriesOnly.

Import Pfind.

Variables (os : OS) (name size : option string).

#[local] Arguments traverse_dir : simpl never.

Lemma descend_type_d (dirpath : string) (entries : list (string * node)) :
  Forall (fun e => forall root,
            traverse_dir os name (Some "d") size root (snd e) =
              traverse_dir os name (Some "d") None root (snd e) /\
            snd (traverse_dir os name (Some "d") size root (snd e)) = Ok tt)
         entries ->
  descend os name (Some "d") size dirpath entries =
    descend os name (Some "d") None dirpath entries /\
  snd (descend os name (Some "d") size dirpath entries) = Ok tt.
Proof.
  induction 1 as [|[d child] es Hchild _ IH]; simpl; [now split|].
  destruct child as [g|g es'|g]; try exact IH.
  cbn [snd] in Hchild. destruct (Hchild (os_path_join dirpath d)) as [Heq Hok].
  rewrite <- Heq.
  destruct (traverse_dir os name (Some "d") size (os_path_join dirpath d) (Dir g es'))
    as [ys [[]| |]]; simpl in Hok; try discriminate.
  destruct IH as [IHeq IHok]. rewrite <- IHeq.
  destruct (descend os name (Some "d") size dirpath es) as [ys' r].
  simpl in *. now split.
Qed.

(** With [type_ = "d"] the loop over the files is not run: the size
    argument is not read, and the traversal raises nothing. *)
Lemma traverse_dir_type_d (n : node) :
  forall root,
    traverse_dir os name (Some "d") size root n =
      traverse_dir os name (Some "d") None root n /\
    snd (traverse_dir os name (Some "d") size root n) = Ok tt.
Proof.
  induction n as [g|g entries IH|g] using pfind_node_induction; intros root;
    try (split; reflexivity).
  rewrite !traverse_dir_Dir. cbv zeta.
  cbn [type_in String.eqb Ascii.eqb Bool.eqb].
  destruct (descend_type_d root entries IH) as [Heq Hok]. rewrite <- Heq.
  destruct (descend os name (Some "d") size root entries) as [ys r].
  simpl in *. now split.
Qed.

End PfindDirectoriesOnly.

(** C10, as the code has it.  In pfind the size filter is never applied
    to a directory, but the size test of a regular file can raise (a
    size argument with no number in it, a file whose size cannot be
    read), and the exception ends the generator where it is raised.  So:
    with the type filter absent or ["d"], a traversal that ends normally
    has yielded every directory below the root whose name the name
    filter does not reject, whatever its size and whatever the size
    argument; and with the type filter ["d"] the size argument is not
    read at all: the traversal yields what it yields without a size
    argument, and always ends normally. *)
Theorem directories_are_not_size_filtered (os : OS)
    (fs : string -> option Pfind.node) (root : string)
    (name type_ size : option string) (t : Pfind.node) :
  fs root = Some t ->
  type_ = None \/ type_ = Some "d" ->
  (snd (Pfind.traverse os fs root name type_ size) = Ok tt ->
   forall (names : list string) (d : string) (n : Pfind.node),
     below t names d n ->
     Pfind.is_dir n = true ->
     Pfind.name_rejects os name d = false ->
     In (path_below root names d)
        (fst (Pfind.traverse os fs root name type_ size))) /\
  (type_ = Some "d" ->
   Pfind.traverse os fs root name type_ size =
     Pfind.traverse os fs root name type_ None /\
   snd (Pfind.traverse os fs root name type_ size) = Ok tt).
Proof.
  intros Hfs Htype. unfold Pfind.traverse. rewrite Hfs. split.
  - intros Hok names d n Hbelow Hdir Hname.
    apply (below_yielded os name type_ size t names d n Hbelow root);
      try assumption.
    destruct Htype as [-> | ->]; reflexivity.
  - intros ->. apply traverse_dir_type_d.
Qed.

(** The scenario tree for pfind, its directories with a size of their
    own. *)
Definition pfind_scenario : Pfind.node :=
  Pfind.Dir (Some 4096)
    [("file1.txt", Pfind.File (Some 5));
     ("dir1", Pfind.Dir (Some 4096)
                [("file2.log", Pfind.File (Some 5));
                 ("sub", Pfind.Dir (Some 4096) [])])].

Definition pfind_fs (root : string) : option Pfind.node :=
  if root ==s "." then Some pfind_scenario else None.

Lemma directories_are_not_size_filtered_witness :
  In "./dir1/sub"
     (fst (Pfind.traverse (os_at 0) pfind_fs "." None None (Some "+100"))).
Proof.
  refine (proj1 (directories_are_not_size_filtered (os_at 0) pfind_fs "." None None
                   (Some "+100") pfind_scenario eq_refl (or_introl eq_refl))
                eq_refl ["dir1"] "sub" (Pfind.Dir (Some 4096) []) _ eq_refl eq_refl).
  apply (below_there _ _ "dir1"
           (Pfind.Dir (Some 4096)
              [("file2.log", Pfind.File (Some 5));
               ("sub", Pfind.Dir (Some 4096) [])])).
  - simpl. right. left. reflexivity.
  - apply below_here. simpl. right. left. reflexivity.
Defined.

(** A root with an entry whose size cannot be read (a dangling link)
    beside a directory that has a sub-directory. *)
Definition dangling_fs (root : string) : option Pfind.node :=
  if root ==s "." then
    Some (Pfind.Dir (Some 4096)
            [("dangling", Pfind.File None);
             ("dir1", Pfind.Dir (Some 4096) [("sub", Pfind.Dir (Some 4096) [])])])
  else None.

(** C10 as stated fails: with no type and no name filter, the size
    argument [+1] makes [os.path.getsize] raise on [./dangling] after
    [./dir1] has been yielded, and the directory [./dir1/sub], which is
    yielded without a size argument, is never reached; a size argument
    with no number in it ends the traversal of the scenario tree the
    same way, at its first file. *)
Lemma size_test_abort_counterexample :
  Pfind.traverse (os_at 0) dangling_fs "." None None (Some "+1") =
    (["./dir1"], Raise OSError) /\
  Pfind.traverse (os_at 0) dangling_fs "." None None None =
    (["./dir1"; "./dangling"; "./dir1/sub"], Ok tt) /\
  Pfind.traverse (os_at 0) pfind_fs "." None None (Some "abc") =
    (["./dir1"], Raise ValueError) /\
  Pfind.traverse (os_at 0) pfind_fs "." None None None =
    (["./dir1"; "./file1.txt"; "./dir1/sub"; "./dir1/file2.log"], Ok tt).
Proof. repeat split; reflexivity. Qed.

(** * Further properties of the code *)

(** ** The parser and the command line of pyfind *)

(** X1.  [parse_expr] returns on every argument list, and when it
    returns a predicate the index it returns beside it is the length of
    the list: the [skip] a caller adds to its own index always carries
    it past the last token.  So [main] returns on every command line. *)
Theorem parse_expr_returns_at_end (os : OS) (args : list string) :
  (exists r, Pyfind.parse_expr os args = Some r /\
             forall e j, r = Ok (e, j) -> j = List.length args) /\
  forall (fs : string -> option Pyfind.node) (argv : list string),
    snd (Pyfind.split_paths argv) = args ->
    exists r, Pyfind.main os fs argv = Some r.
Proof.
  split.
  - destruct (parse_expr_returns os args) as [r Hr]. exists r.
    split; [exact Hr|]. intros e j ->. now apply (parse_expr_end os args e j).
  - intros fs argv Hargs. unfold Pyfind.main.
    destruct (Pyfind.split_paths argv) as [paths0 expr_args]. simpl in Hargs.
    subst expr_args.
    destruct (parse_expr_returns os args) as [r ->].
    destruct r as [[expr j]| |]; eauto.
    destruct (Pyfind.depth_option "-mindepth" args); eauto.
    destruct (Pyfind.depth_option "-maxdepth" args); eauto.
    match goal with
    | |- context [Pyfind.walk ?o ?f ?p ?e ?a ?mi ?ma ?k] =>
        destruct (Pyfind.walk o f p e a mi ma k) as [[vs st] k']
    end.
    eauto.
Qed.

(** X2.  The list [actions] that [parse_expr] keeps while it scans has
    no part in what it returns: from any position and accumulated
    predicate, the scan returns the same result whatever that list
    holds.  (This is why [main] works the action out again.) *)
Theorem parse_result_ignores_actions (os : OS) (fuel : nat) :
  forall (args : list string) (expr : Pyfind.Expr)
         (actions1 actions2 : list Pyfind.action) (i : nat),
    Pyfind.parse_loop os fuel args expr actions1 i =
    Pyfind.parse_loop os fuel args expr actions2 i.
Proof.
  induction fuel as [|fuel IH]; intros args expr actions1 actions2 i;
    [reflexivity|].
  rewrite !parse_loop_step.
  destruct (nth_error args i) as [arg|]; [|reflexivity].
  assert (Hnested : forall combine,
             nested_call os fuel args actions1 i combine =
             nested_call os fuel args actions2 i combine).
  { intros combine. unfold nested_call.
    destruct (Pyfind.parse_loop os fuel (skipn (i + 1) args) Pyfind.TrueExpr
                [Pyfind.action_print] 0) as [[[subexpr skip]| |]|];
      try reflexivity. apply IH. }
  destruct (classify os arg); try apply IH; try apply Hnested; try reflexivity.
  destruct (bind (Pyfind.next_arg args i) init); try reflexivity. apply IH.
Qed.

(** X3.  [main] splits the command line in two without dropping or
    reordering anything: the paths are the longest prefix of arguments
    that do not start with a dash, and the expression arguments are the
    rest, which is empty or starts with an argument that does. *)
Theorem split_paths_partition (argv : list string) :
  let '(paths, expr_args) := Pyfind.split_paths argv in
  argv = (paths ++ expr_args)%list /\
  Forall (fun a => startswith a "-" = false) paths /\
  match expr_args with
  | [] => True
  | a :: _ => startswith a "-" = true
  end.
Proof.
  induction argv as [|a rest IH]; simpl; [repeat split; constructor|].
  destruct (startswith a "-") eqn:Ha; [repeat split; [constructor | exact Ha]|].
  destruct (Pyfind.split_paths rest) as [paths expr_args].
  destruct IH as [Heq [Hall Hhead]].
  split; [simpl; now rewrite <- Heq|].
  split; [now constructor | exact Hhead].
Qed.





(** X5.  Where the scan of [parse_expr] stands on [-user] (or
    [-group]) with an argument after it that is ASCII text of at most
    [int_max_str_digits] characters: an argument made of digits is
    taken as the numeric id without asking the user (group) database;
    any other argument is looked up there, and an unknown name raises
    [KeyError] while parsing, so the run ends before any directory is
    visited.  (Outside ASCII, [isdigit] holds of characters such as a
    superscript two that [int] refuses, and [int] refuses a longer run
    of digits: the constructor then raises [ValueError].) *)
Theorem owner_resolved_when_parsed (os : OS) (fuel : nat) (args : list string)
    (expr : Pyfind.Expr) (actions : list Pyfind.action) (i : nat) (a : string) :
  nth_error args (i + 1) = Some a ->
  ascii_text a = true ->
  (String.length a <= int_max_str_digits)%nat ->
  (List.length args - i < fuel)%nat ->
  (nth_error args i = Some "-user" ->
   Pyfind.parse_loop os fuel args expr actions i =
     if isdigit a then
       Pyfind.parse_loop os fuel args (Pyfind.And expr (Pyfind.User (decimal a)))
         actions (i + 2)
     else
       match getpwnam os a with
       | Some uid =>
           Pyfind.parse_loop os fuel args (Pyfind.And expr (Pyfind.User uid))
             actions (i + 2)
       | None => Some (Raise KeyError)
       end) /\
  (nth_error args i = Some "-group" ->
   Pyfind.parse_loop os fuel args expr actions i =
     if isdigit a then
       Pyfind.parse_loop os fuel args (Pyfind.And expr (Pyfind.Group (decimal a)))
         actions (i + 2)
     else
       match getgrnam os a with
       | Some gid =>
           Pyfind.parse_loop os fuel args (Pyfind.And expr (Pyfind.Group gid))
             actions (i + 2)
       | None => Some (Raise KeyError)
       end) /\
  forall (fs : string -> option Pyfind.node) (argv : list string),
    Pyfind.parse_expr os (snd (Pyfind.split_paths argv)) = Some (Raise KeyError) ->
    Pyfind.main os fs argv = Some (Pyfind.mk_run [] (Raise KeyError)).
Proof.
  intros Ha _ _ Hfuel.
  assert (Hi : (i + 1 < List.length args)%nat) by (apply nth_error_Some; congruence).
  destruct fuel as [|fuel]; [lia|].
  assert (Hmore : forall e,
             Pyfind.parse_loop os fuel args e actions (i + 2) =
             Pyfind.parse_loop os (S fuel) args e actions (i + 2))
    by (intros e; symmetry; apply parse_loop_more; lia).
  split; [|split].
  - intros Htok. rewrite parse_loop_step, Htok.
    cbn [classify String.eqb Ascii.eqb Bool.eqb].
    unfold Pyfind.next_arg. rewrite Ha. cbn [bind]. unfold Pyfind.User_init.
    destruct (isdigit a) eqn:Hd.
    + rewrite (int_decimal a Hd). cbn [bind]. apply Hmore.
    + destruct (getpwnam os a); [apply Hmore | reflexivity].
  - intros Htok. rewrite parse_loop_step, Htok.
    cbn [classify String.eqb Ascii.eqb Bool.eqb].
    unfold Pyfind.next_arg. rewrite Ha. cbn [bind]. unfold Pyfind.Group_init.
    destruct (isdigit a) eqn:Hd.
    + rewrite (int_decimal a Hd). cbn [bind]. apply Hmore.
    + destruct (getgrnam os a); [apply Hmore | reflexivity].
  - intros fs argv. apply main_parse_failure.
Qed.

Lemma owner_resolved_when_parsed_witness :
  Pyfind.parse_loop (os_at 0) 3 ["-user"; "alice"] Pyfind.TrueExpr
    [Pyfind.action_print] 0 = Some (Raise KeyError).
Proof.
  exact (proj1 (owner_resolved_when_parsed (os_at 0) 3 ["-user"; "alice"]
                  Pyfind.TrueExpr [Pyfind.action_print] 0 "alice" eq_refl
                  eq_refl ltac:(unfold int_max_str_digits; simpl; lia)
                  ltac:(simpl; lia)) eq_refl).
Defined.

(** X6.  The seven kinds of [-type] exclude one another: no mode has
    two of them, so no entry satisfies [-type] with two different
    letters. *)
Theorem type_kinds_exclusive (t t' : string) (mode : Z) :
  In t type_kinds ->
  In t' type_kinds ->
  Pyfind.type_test t mode = true ->
  Pyfind.type_test t' mode = true ->
  t = t'.
Proof.
  unfold type_kinds. simpl. intros Ht Ht'.
  repeat (destruct Ht as [<- | Ht]; [|]); try contradiction;
    repeat (destruct Ht' as [<- | Ht']; [|]); try contradiction;
    try reflexivity;
    cbn [Pyfind.type_test String.eqb Ascii.eqb Bool.eqb];
    unfold S_ISREG, S_ISDIR, S_ISLNK, S_ISBLK, S_ISCHR, S_ISFIFO, S_ISSOCK;
    intros H1 H2; apply Z.eqb_eq in H1, H2; congruence.
Qed.

Lemma type_kinds_exclusive_witness : "d" = "d".
Proof.
  exact (type_kinds_exclusive "d" "d" 16877
           ltac:(unfold type_kinds; simpl; tauto)
           ltac:(unfold type_kinds; simpl; tauto) eq_refl eq_refl).
Defined.

(** ** The walk of pyfind *)

Section WalkMatches.

Import Pyfind.

Variables (os : OS) (expr : Expr) (actions : list action).

(** Every call of the loop over the names is for a name whose [lstat]
    succeeded and on which the predicate had just returned true. *)
Lemma walk_names_matched (root : string) (names : list (string * node)) :
  forall k c,
    In c (fst (fst (walk_names os expr actions root names k))) ->
    exists k1 k2, eval os expr (c_path c) (c_st c) k1 = (Ok true, k2).
Proof.
  induction names as [|[name n] rest IH]; intros k c; simpl; [contradiction|].
  destruct (lstat n) as [st|] eqn:Hst; [|apply IH].
  destruct (eval os expr (os_path_join root name) st k) as [[[]| |] k'] eqn:E;
    try (apply IH); try (simpl; contradiction).
  destruct (walk_names os expr actions root rest k') as [[calls r] k''] eqn:E'.
  simpl. intros Hc. apply in_app_or in Hc as [Hc | Hc].
  - apply in_map_iff in Hc as [a [<- Ha]]. simpl. now exists k, k'.
  - apply (IH k'). now rewrite E'.
Qed.

End WalkMatches.

(** X7.  The walk acts only on entries that matched: every action call
    it makes is a call of one of the selected actions, on the path of a
    name listed in the visited directory whose [os.lstat] succeeded,
    with the metadata that call returned, and the predicate evaluated
    to true on exactly that path and metadata. *)
Theorem acted_entries_matched (os : OS) (fs : string -> option Pyfind.node)
    (paths : list string) (expr : Pyfind.Expr) (actions : list Pyfind.action)
    (mindepth : Z) (maxdepth : option Z) (k : nat)
    (v : Pyfind.visit) (c : Pyfind.call) :
  In v (fst (fst (Pyfind.walk os fs paths expr actions mindepth maxdepth k))) ->
  In c (Pyfind.v_calls v) ->
  In (Pyfind.c_action c) actions /\
  (exists name, In name (Pyfind.v_files v ++ Pyfind.v_dirs v)%list /\
                Pyfind.c_path c = os_path_join (Pyfind.v_root v) name) /\
  exists k1 k2,
    Pyfind.eval os expr (Pyfind.c_path c) (Pyfind.c_st c) k1 = (Ok true, k2).
Proof.
  intros Hv Hc.
  destruct (walk_shape os fs expr actions mindepth maxdepth paths k v Hv)
    as [_ [_ [entries [Hd [Hf Hcalls]]]]].
  destruct Hcalls as [Hnil | [_ [_ [k0 Hk0]]]];
    [rewrite Hnil in Hc; contradiction|].
  rewrite Hk0 in Hc.
  destruct (walk_names_calls os expr actions _ _ k0 c Hc)
    as [Ha [name [n [Hin [Hp _]]]]].
  split; [exact Ha|]. split.
  - exists name. split; [|exact Hp].
    rewrite Hf, Hd, <- map_app. apply (in_map fst) in Hin. exact Hin.
  - exact (walk_names_matched os expr actions _ _ k0 c Hc).
Qed.

Lemma acted_entries_matched_witness :
  exists k1 k2,
    Pyfind.eval (os_at 0) (Pyfind.And Pyfind.TrueExpr (Pyfind.Type_ "f"))
      "./file1.txt" st_file k1 = (Ok true, k2).
Proof.
  exact (proj2 (proj2
           (acted_entries_matched (os_at 0) scenario_fs ["."]
              (Pyfind.And Pyfind.TrueExpr (Pyfind.Type_ "f"))
              [Pyfind.action_print] 0 None 0%nat
              (Pyfind.mk_visit "." "." ["dir1"] ["file1.txt"]
                 [Pyfind.mk_call Pyfind.action_print "./file1.txt" st_file])
              (Pyfind.mk_call Pyfind.action_print "./file1.txt" st_file)
              ltac:(simpl; left; reflexivity) ltac:(simpl; left; reflexivity)))).
Defined.

(** ** Where evaluation can fail *)




Section EvaluationReturns.

Import Pyfind.

Variable os : OS.




End EvaluationReturns.



(** ** Names and paths *)

Lemma count_app (c : ascii) (s t : string) :
  count c (s ++ t) = count c s + count c t.
Proof.
  induction s as [|d r IH]; simpl; [reflexivity|]. rewrite IH. lia.
Qed.

Lemma startswith_no_slash (s : string) :
  count "/" s = 0 -> startswith s "/" = false.
Proof.
  destruct s as [|d r]; simpl; [reflexivity|].
  pose proof (count_nonneg "/" r). destruct (Ascii.eqb d "/"); [lia | reflexivity].
Qed.

(** What follows the last slash of [pre ++ "/" ++ name] is [name], when
    [name] holds no slash. *)
Lemma basename_after_slash (pre name : string) :
  count "/" name = 0 -> basename (pre ++ "/" ++ name) = name.
Proof.
  intros Hname. induction pre as [|c r IH]; simpl.
  - rewrite Hname. reflexivity.
  - rewrite count_app. pose proof (count_nonneg "/" r) as Hr.
    match goal with
    | |- context [?a <? ?b] => destruct (Z.ltb_spec a b) as [_|Hle]
    end; [exact IH|].
    exfalso. simpl in Hle. rewrite Hname in Hle. lia.
Qed.

Lemma endswith_slash_split (s : string) :
  endswith_slash s = true -> exists pre, s = pre ++ "/".
Proof.
  induction s as [|c r IH]; simpl; [discriminate|].
  destruct r as [|c' r'].
  - intros H. apply Ascii.eqb_eq in H. subst c. now exists EmptyString.
  - intros H. destruct (IH H) as [pre ->]. now exists (String c pre).
Qed.

Lemma append_assoc (a b c : string) : (a ++ b) ++ c = a ++ (b ++ c).
Proof. induction a as [|x a IH]; simpl; [reflexivity | now rewrite IH]. Qed.

Lemma basename_no_slash (name : string) :
  count "/" name = 0 -> basename name = name.
Proof.
  destruct name as [|c r]; simpl; [reflexivity|].
  pose proof (count_nonneg "/" r).
  destruct (Ascii.eqb c "/"); [lia|].
  intros H0. simpl in H0. now replace (0 <? count "/" r) with false
    by (symmetry; apply Z.ltb_ge; lia).
Qed.

Lemma basename_join (root name : string) :
  count "/" name = 0 -> basename (os_path_join root name) = name.
Proof.
  intros Hname. unfold os_path_join.
  rewrite (startswith_no_slash name Hname).
  destruct (String.eqb_spec root "") as [->|_]; simpl.
  - now apply basename_no_slash.
  - destruct (endswith_slash root) eqn:E.
    + destruct (endswith_slash_split root E) as [pre ->].
      rewrite append_assoc. now apply basename_after_slash.
    + now apply basename_after_slash.
Qed.

(** X9.  The name tests see the entry's own name and nothing of the
    directories above it: on the path the walk builds for a name listed
    in a directory, [-name pattern] is the glob match of that name, and
    [-iname pattern] the glob match of the name and the pattern both
    lower-cased, whatever the directory. *)
Theorem name_tests_see_entry_name (os : OS) (root name pattern : string)
    (st : stat_result) (k : nat) :
  count "/" name = 0 ->
  Pyfind.eval os (Pyfind.Name pattern) (os_path_join root name) st k =
    (Ok (fnmatch os name pattern), k) /\
  Pyfind.eval os (Pyfind.Iname pattern) (os_path_join root name) st k =
    (Ok (fnmatch os (lower name) (lower pattern)), k).
Proof.
  intros Hname. simpl. unfold Pyfind.cret, Pyfind.match_pattern.
  now rewrite (basename_join root name Hname).
Qed.

Lemma name_tests_see_entry_name_witness :
  Pyfind.eval (os_at 0) (Pyfind.Name "*.log") (os_path_join "./dir1" "file2.log")
    st_file 0%nat =
    (Ok (fnmatch (os_at 0) "file2.log" "*.log"), 0%nat).
Proof.
  exact (proj1 (name_tests_see_entry_name (os_at 0) "./dir1" "file2.log" "*.log"
                  st_file 0%nat eq_refl)).
Defined.

(** ** What the walk finds *)

(** [inside t root dir name n]: in the tree [t] walked from the path
    [root], the directory reached at the path [dir] lists the name
    [name], which is the node [n]. *)
Inductive inside : Pyfind.node -> string -> string -> string -> Pyfind.node -> Prop :=
| inside_here (l : option stat_result) (entries : list (string * Pyfind.node))
    (root name : string) (n : Pyfind.node) :
    In (name, n) entries ->
    inside (Pyfind.Dir l entries) root root name n
| inside_there (l : option stat_result) (entries : list (string * Pyfind.node))
    (root d : string) (child : Pyfind.node) (dir name : string) (n : Pyfind.node) :
    In (d, child) entries ->
    inside child (os_path_join root d) dir name n ->
    inside (Pyfind.Dir l entries) root dir name n.

Section WalkFinds.

Import Pyfind.

Variables (os : OS) (expr : Expr) (actions : list action) (top : string).

#[local] Arguments walk_dir : simpl never.

Lemma entries_partition (entries : list (string * node)) (e : string * node) :
  In e entries -> In e (file_entries entries ++ dir_entries entries).
Proof.
  intros Hin. apply in_or_app. unfold file_entries, dir_entries.
  destruct (is_dir (snd e)) eqn:E.
  - right. apply filter_In. now split.
  - left. apply filter_In. split; [exact Hin | now rewrite E].
Qed.

(** When the loop over the names ends normally, every listed name whose
    [lstat] succeeds and on which the predicate is true got its calls. *)
Lemma walk_names_finds (root : string) (names : list (string * node))
    (name : string) (n : node) (st : stat_result) (a : action) :
  In (name, n) names ->
  lstat n = Some st ->
  (forall k, fst (eval os expr (os_path_join root name) st k) = Ok true) ->
  In a actions ->
  forall k,
    snd (fst (walk_names os expr actions root names k)) = Ok tt ->
    In (mk_call a (os_path_join root name) st)
       (fst (fst (walk_names os expr actions root names k))).
Proof.
  intros Hin Hst Htrue Ha.
  induction names as [|[name' n'] rest IH]; intros k; simpl; [contradiction|].
  destruct Hin as [[= -> ->] | Hin].
  - rewrite Hst. specialize (Htrue k).
    destruct (eval os expr (os_path_join root name) st k) as [r k'].
    simpl in Htrue. subst r.
    destruct (walk_names os expr actions root rest k') as [[calls r] k''].
    simpl. intros _. apply in_or_app. left.
    apply in_map_iff. now exists a.
  - specialize (IH Hin).
    destruct (lstat n') as [st'|]; [|apply IH].
    destruct (eval os expr (os_path_join root name') st' k) as [[[]| |] k'];
      try (apply IH); try (simpl; discriminate).
    specialize (IH k').
    destruct (walk_names os expr actions root rest k') as [[calls r] k''].
    simpl in *. intros Hok. apply in_or_app. right. now apply IH.
Qed.

(** When the descent ends normally, every sub-directory was walked to
    its end, and its visits are among those of the descent. *)
Lemma descend_walks_child (root : string) (entries : list (string * node))
    (d : string) (l : option stat_result) (es : list (string * node)) :
  In (d, Dir l es) entries ->
  forall k,
    snd (fst (descend os expr actions 0 None top root entries k)) = Ok tt ->
    exists k0,
      snd (fst (walk_dir os expr actions 0 None top (os_path_join root d) (Dir l es) k0))
        = Ok tt /\
      incl (fst (fst (walk_dir os expr actions 0 None top (os_path_join root d)
                        (Dir l es) k0)))
           (fst (fst (descend os expr actions 0 None top root entries k))).
Proof.
  intros Hin.
  induction entries as [|[d' child] rest IH]; intros k; simpl; [contradiction|].
  destruct Hin as [[= -> ->] | Hin].
  - destruct (walk_dir os expr actions 0 None top (os_path_join root d) (Dir l es) k)
      as [[vs r] k'] eqn:E.
    destruct r as [[]| |]; simpl; try discriminate.
    destruct (descend os expr actions 0 None top root rest k') as [[vs' r'] k''].
    simpl. intros _. exists k. rewrite E. simpl.
    split; [reflexivity | apply incl_appl, incl_refl].
  - specialize (IH Hin).
    destruct child as [l'|l' es'|l']; try apply IH.
    destruct (walk_dir os expr actions 0 None top (os_path_join root d') (Dir l' es') k)
      as [[vs r] k'].
    destruct r as [[]| |]; simpl; try discriminate.
    specialize (IH k').
    destruct (descend os expr actions 0 None top root rest k') as [[vs' r'] k''].
    simpl in *. intros Hok. destruct (IH Hok) as [k0 [H1 H2]].
    exists k0. split; [exact H1 | now apply incl_appr].
Qed.

Lemma walk_dir_finds (t : node) (root dir name : string) (n : node) :
  inside t root dir name n ->
  forall (st : stat_result) (a : action) (k : nat),
    lstat n = Some st ->
    (forall k', fst (eval os expr (os_path_join dir name) st k') = Ok true) ->
    In a actions ->
    snd (fst (walk_dir os expr actions 0 None top root t k)) = Ok tt ->
    exists v,
      In v (fst (fst (walk_dir os expr actions 0 None top root t k))) /\
      v_root v = dir /\
      In (mk_call a (os_path_join dir name) st) (v_calls v).
Proof.
  induction 1 as [l entries root name n Hin
                 |l entries root d child dir name n Hin Hinside IH];
    intros st a k Hst Htrue Ha; rewrite walk_dir_Dir; cbv zeta;
    change (below_mindepth 0 (rel_depth top root)) with false;
    change (above_maxdepth None (rel_depth top root)) with false; cbv iota.
  - pose proof (walk_names_finds root (file_entries entries ++ dir_entries entries)
                  name n st a (entries_partition entries _ Hin) Hst Htrue Ha k)
      as Hfind.
    destruct (walk_names os expr actions root
                (file_entries entries ++ dir_entries entries) k)
      as [[calls r] k'].
    destruct r as [[]| |]; simpl; try discriminate.
    destruct (descend os expr actions 0 None top root entries k') as [[vs r'] k''].
    simpl. intros _. eexists. split; [left; reflexivity|].
    split; [reflexivity | now apply Hfind].
  - destruct (walk_names os expr actions root
                (file_entries entries ++ dir_entries entries) k)
      as [[calls r] k'].
    destruct r as [[]| |]; simpl; try discriminate.
    destruct child as [l'|l' es'|l']; try (inversion Hinside; fail).
    pose proof (descend_walks_child root entries d l' es' Hin k') as Hchild.
    destruct (descend os expr actions 0 None top root entries k') as [[vs r'] k''].
    simpl in *. intros Hok. destruct (Hchild Hok) as [k0 [Hk0 Hincl]].
    destruct (IH st a k0 Hst Htrue Ha Hk0) as [v [Hv Hrest]].
    exists v. split; [right; now apply Hincl | exact Hrest].
Qed.

End WalkFinds.

(** X10.  Without depth bounds, a walk that runs to its end has acted on
    every match: for every name listed in a directory below a top path
    (reached through real directories, not through links), if
    [os.lstat] succeeds on it and the predicate is true of its path and
    metadata, then each selected action was called on that path with
    that metadata, in the visit of that directory. *)
Theorem walk_finds_every_match (os : OS) (fs : string -> option Pyfind.node)
    (expr : Pyfind.Expr) (actions : list Pyfind.action)
    (top : string) (t : Pyfind.node) (dir name : string) (n : Pyfind.node)
    (st : stat_result) (a : Pyfind.action) (k : nat) :
  fs top = Some t ->
  inside t top dir name n ->
  Pyfind.lstat n = Some st ->
  (forall k', fst (Pyfind.eval os expr (os_path_join dir name) st k') = Ok true) ->
  In a actions ->
  snd (fst (Pyfind.walk os fs [top] expr actions 0 None k)) = Ok tt ->
  exists v,
    In v (fst (fst (Pyfind.walk os fs [top] expr actions 0 None k))) /\
    Pyfind.v_root v = dir /\
    In (Pyfind.mk_call a (os_path_join dir name) st) (Pyfind.v_calls v).
Proof.
  intros Hfs Hinside Hst Htrue Ha. simpl. rewrite Hfs.
  pose proof (walk_dir_finds os expr actions top t top dir name n Hinside st a k
                Hst Htrue Ha) as Hfind.
  destruct (Pyfind.walk_dir os expr actions 0 None top top t k) as [[vs r] k'].
  destruct r as [[]| |]; simpl in *; try discriminate.
  intros _. destruct (Hfind eq_refl) as [v [Hv Hrest]].
  exists v. split; [|exact Hrest]. rewrite app_nil_r. exact Hv.
Qed.

Lemma walk_finds_every_match_witness :
  exists v,
    In v (fst (fst (Pyfind.walk (os_at 0) scenario_fs ["."]
                      (Pyfind.And Pyfind.TrueExpr (Pyfind.Type_ "f"))
                      [Pyfind.action_print] 0 None 0%nat))) /\
    Pyfind.v_root v = "./dir1" /\
    In (Pyfind.mk_call Pyfind.action_print (os_path_join "./dir1" "file2.log") st_file)
       (Pyfind.v_calls v).
Proof.
  refine (walk_finds_every_match (os_at 0) scenario_fs
            (Pyfind.And Pyfind.TrueExpr (Pyfind.Type_ "f")) [Pyfind.action_print]
            "." scenario "./dir1" "file2.log" (Pyfind.File (Some st_file))
            st_file Pyfind.action_print 0%nat eq_refl _ eq_refl
            (fun _ => eq_refl) (or_introl eq_refl) eq_refl).
  apply (inside_there _ _ "." "dir1"
           (Pyfind.Dir (Some st_dir) [("file2.log", Pyfind.File (Some st_file))])).
  - simpl. right. left. reflexivity.
  - apply inside_here. simpl. left. reflexivity.
Defined.

(** ** Sizes with units *)

Lemma init_last_snoc (s : string) (c : ascii) :
  Pyfind.init_last (s ++ String c EmptyString) = Some (s, c).
Proof.
  induction s as [|d r IH]; simpl; [reflexivity | now rewrite IH].
Qed.

Lemma init_last_digits (s : string) :
  isdigit s = true ->
  exists i l, Pyfind.init_last s = Some (i, l) /\ is_digit l = true.
Proof.
  intros H. pose proof (isdigit_all s H) as Hall.
  destruct s as [|c r]; [discriminate|]. clear H.
  revert c Hall. induction r as [|c' r IH]; intros c Hall; simpl in Hall |- *.
  - apply andb_prop in Hall as [Hc _]. eauto.
  - apply andb_prop in Hall as [Hc Hr].
    destruct (IH c' Hr) as [i [l [E Hl]]]. simpl in E. rewrite E. eauto.
Qed.

Lemma digit_no_unit (c : ascii) : is_digit c = true -> Pyfind.units c = None.
Proof.
  destruct c as [[] [] [] [] [] [] [] []]; vm_compute; congruence.
Qed.

(** X11.  [parse_size] reads a run of digits followed by one of the unit
    letters [b], [c], [w], [k], [M], [G] as the number times 1, 1, 2,
    1024, 1024^2, 1024^3, and a run of digits alone as the number; on
    the empty string it raises [IndexError] (from [size_str[-1]]). *)
Theorem parse_size_units (N : string) :
  isdigit N = true ->
  (forall (c : ascii) (u : Z),
     Pyfind.units c = Some u ->
     Pyfind.parse_size (N ++ String c EmptyString) = Ok (decimal N * u)) /\
  Pyfind.parse_size N = Ok (decimal N) /\
  Pyfind.parse_size EmptyString = Raise IndexError /\
  Pyfind.units "b" = Some 1 /\ Pyfind.units "c" = Some 1 /\
  Pyfind.units "w" = Some 2 /\ Pyfind.units "k" = Some 1024 /\
  Pyfind.units "M" = Some 1048576 /\ Pyfind.units "G" = Some 1073741824.
Proof.
  intros H. split; [|split; [|repeat split]].
  - intros c u Hu. unfold Pyfind.parse_size.
    rewrite init_last_snoc, Hu, (int_decimal N H). reflexivity.
  - unfold Pyfind.parse_size.
    destruct (init_last_digits N H) as [i [l [-> Hl]]].
    rewrite (digit_no_unit l Hl). now apply int_decimal.
Qed.

Lemma parse_size_units_witness :
  Pyfind.parse_size ("10" ++ "k") = Ok (decimal "10" * 1024).
Proof.
  exact (proj1 (parse_size_units "10" eq_refl) "k"%char 1024 eq_refl).
Defined.

(** The first character of [s] is a decimal digit. *)
Definition starts_with_digit (s : string) : bool :=
  match s with
  | String c _ => is_digit c
  | EmptyString => false
  end.

(** The multiplier of the unit letter that [rest] starts with, if it
    starts with one. *)
Definition unit_factor (rest : string) : Z :=
  match rest with
  | String c _ =>
      if mem_ascii c "kK" then 1024
      else if mem_ascii c "mM" then 1024 ^ 2
      else if mem_ascii c "gG" then 1024 ^ 3
      else 1
  | EmptyString => 1
  end.

Lemma span_digits_app (N rest : string) :
  all_digits N = true ->
  starts_with_digit rest = false ->
  Pfind.span_digits (N ++ rest) = (N, rest).
Proof.
  intros HN Hrest. induction N as [|c r IH]; simpl.
  - destruct rest as [|d rest']; [reflexivity|]. simpl in Hrest |- *. now rewrite Hrest.
  - simpl in HN. apply andb_prop in HN as [Hc Hr]. now rewrite Hc, (IH Hr).
Qed.

Lemma factor_of_unit (rest : string) :
  (let unit :=
     match rest with
     | String c _ => if mem_ascii c "kKmMgG" then String c EmptyString else EmptyString
     | EmptyString => EmptyString
     end in
   if lower unit ==s "k" then 1024
   else if lower unit ==s "m" then 1024 ^ 2
   else if lower unit ==s "g" then 1024 ^ 3
   else 1) = unit_factor rest.
Proof.
  destruct rest as [|c rest]; [reflexivity|].
  unfold unit_factor. destruct c as [[] [] [] [] [] [] [] []]; reflexivity.
Qed.

(** X12.  [parse_size_expr] reads an optional sign, a run of digits and
    what follows: the value is the number times 1024, 1024^2 or 1024^3
    when a [k], [m] or [g] of either case comes right after the digits,
    and the number itself otherwise.  Whatever stands after that is not
    looked at: the pattern is anchored at the start of the expression
    only, so [10kb] reads as [10k] and [5x] as [5]. *)
Theorem parse_size_expr_value (sign N rest : string) :
  In sign [""; "+"; "-"] ->
  isdigit N = true ->
  starts_with_digit rest = false ->
  Pfind.parse_size_expr (sign ++ N ++ rest) =
    Ok (Some (sign, decimal N * unit_factor rest)).
Proof.
  intros Hsign HN Hrest. pose proof (isdigit_all N HN) as Hall.
  destruct N as [|d r]; [discriminate|].
  pose proof HN as Hd. simpl in Hd. apply andb_prop in Hd as [Hd _].
  destruct (digit_not_sign d Hd) as [Hp Hm].
  assert (Hbody : forall body : string,
             (let '(num, after_num) := Pfind.span_digits (String d r ++ rest) in
              if num ==s "" then Raise ValueError
              else
                let unit :=
                  match after_num with
                  | String c _ =>
                      if mem_ascii c "kKmMgG" then String c EmptyString else EmptyString
                  | EmptyString => EmptyString
                  end in
                bind (int num) (fun num =>
                let factor :=
                  if lower unit ==s "k" then 1024
                  else if lower unit ==s "m" then 1024 ^ 2
                  else if lower unit ==s "g" then 1024 ^ 3
                  else 1 in
                Ok (Some (body, num * factor)))) =
             Ok (Some (body, decimal (String d r) * unit_factor rest))).
  { intros body. rewrite (span_digits_app _ rest Hall Hrest).
    cbn [String.eqb]. rewrite (int_decimal _ HN). cbn [bind].
    pose proof (factor_of_unit rest) as Hf. cbv zeta in Hf |- *. now rewrite Hf. }
  unfold Pfind.parse_size_expr.
  simpl in Hsign. destruct Hsign as [<- | [<- | [<- | []]]].
  - change ("" ++ String d r ++ rest) with (String d (r ++ rest)).
    cbn [String.eqb].
    assert (Hs : match String d (r ++ rest) with
                 | String "+" r0 => ("+", r0)
                 | String "-" r0 => ("-", r0)
                 | _ => ("", String d (r ++ rest))
                 end = ("", String d (r ++ rest))).
    { destruct d as [[] [] [] [] [] [] [] []]; try reflexivity;
        vm_compute in Hp, Hm; congruence. }
    rewrite Hs. apply (Hbody "").
  - apply (Hbody "+").
  - apply (Hbody "-").
Qed.

Lemma parse_size_expr_value_witness :
  Pfind.parse_size_expr ("+" ++ "10" ++ "kb") = Ok (Some ("+", decimal "10" * unit_factor "kb")).
Proof.
  exact (parse_size_expr_value "+" "10" "kb" ltac:(simpl; tauto) eq_refl eq_refl).
Defined.

Lemma span_digits_fst (s : string) :
  all_digits (fst (Pfind.span_digits s)) = true /\
  (starts_with_digit s = true -> fst (Pfind.span_digits s) <> EmptyString) /\
  (starts_with_digit s = false -> fst (Pfind.span_digits s) = EmptyString).
Proof.
  induction s as [|c r IH]; simpl; [repeat split; congruence|].
  destruct (is_digit c) eqn:Hc.
  - destruct (Pfind.span_digits r) as [ds rest]. simpl in *.
    destruct IH as [IH _]. rewrite Hc, IH. repeat split; congruence.
  - simpl. repeat split; congruence.
Qed.

(** X13.  On a size expression that is ASCII text of at most
    [int_max_str_digits] characters, the size filter of pfind fails
    exactly when there is no number in it: [parse_size_expr], and
    [match_size] with it, raises [ValueError] when the expression is not
    empty and no digit follows its optional sign, and returns a sign and
    a value whenever one does.  (A longer run of digits is refused by
    [int] itself, with the same exception.) *)
Theorem size_expr_error (e : string) :
  e <> EmptyString ->
  ascii_text e = true ->
  (String.length e <= int_max_str_digits)%nat ->
  (starts_with_digit (numeral_of e) = false ->
   Pfind.parse_size_expr e = Raise ValueError /\
   forall v, Pfind.match_size v (Some e) = Raise ValueError) /\
  (starts_with_digit (numeral_of e) = true ->
   (exists sign value, Pfind.parse_size_expr e = Ok (Some (sign, value))) /\
   forall v, exists b, Pfind.match_size v (Some e) = Ok b).
Proof.
  intros Hne _ _.
  assert (Hnz : (e ==s "") = false) by (apply String.eqb_neq; exact Hne).
  assert (Hsplit : exists sign,
             match e with
             | String "+" r => ("+", r)
             | String "-" r => ("-", r)
             | _ => ("", e)
             end = (sign, numeral_of e)).
  { unfold numeral_of. destruct e as [|c r]; [congruence|].
    destruct c as [[] [] [] [] [] [] [] []]; simpl; eauto. }
  destruct Hsplit as [sign Hsplit].
  destruct (span_digits_fst (numeral_of e)) as [Hall [Hsome Hnone]].
  unfold Pfind.match_size, Pfind.parse_size_expr.
  rewrite Hnz, Hsplit.
  destruct (Pfind.span_digits (numeral_of e)) as [num after_num]. simpl in *.
  split.
  - intros Hd. rewrite (Hnone Hd). simpl. split; [reflexivity | intros v; reflexivity].
  - intros Hd. specialize (Hsome Hd).
    assert (Hnum : (num ==s "") = false) by (apply String.eqb_neq; exact Hsome).
    rewrite Hnum.
    assert (Hdigit : isdigit num = true) by (destruct num; [congruence | exact Hall]).
    rewrite (int_decimal num Hdigit). cbn [bind]. split; [eauto|].
    intros v. destruct (sign ==s "+"); [eauto|]. destruct (sign ==s "-"); eauto.
Qed.

Lemma size_expr_error_witness :
  Pfind.match_size 5 (Some "abc") = Raise ValueError.
Proof.
  exact (proj2 (proj1 (size_expr_error "abc" ltac:(discriminate) eq_refl
                         ltac:(unfold int_max_str_digits; simpl; lia)) eq_refl) 5).
Defined.

(** ** What pfind yields *)

(** The size filter lets the node through: there is none, or the size
    can be read and [match_size] is true of it. *)
Definition size_passes (size : option string) (n : Pfind.node) : Prop :=
  Pfind.falsy size = true \/
  exists sz, Pfind.getsize n = Ok sz /\ Pfind.match_size sz size = Ok true.

Section PfindSound.

Import Pfind.

Variables (os : OS) (name type_ size : option string).

#[local] Arguments traverse_dir : simpl never.

Lemma yield_dirs_sound (dirpath : string) (dirs : list (string * node)) (p : string) :
  In p (yield_dirs os name dirpath dirs) ->
  exists d n, In (d, n) dirs /\ p = os_path_join dirpath d /\
              name_rejects os name d = false.
Proof.
  induction dirs as [|[d n] rest IH]; simpl; [contradiction|].
  destruct (name_rejects os name d) eqn:E.
  - intros H. destruct (IH H) as [d' [n' [Hin Hp]]]. exists d', n'. split; [now right | exact Hp].
  - intros [<- | H].
    + exists d, n. split; [now left | now split].
    + destruct (IH H) as [d' [n' [Hin Hp]]]. exists d', n'. split; [now right | exact Hp].
Qed.

Lemma yield_files_sound (dirpath : string) (files : list (string * node)) (p : string) :
  In p (fst (yield_files os name size dirpath files)) ->
  exists f n, In (f, n) files /\ p = os_path_join dirpath f /\
              name_rejects os name f = false /\ size_passes size n.
Proof.
  induction files as [|[f n] rest IH]; simpl; [contradiction|].
  assert (Hrest : In p (fst (yield_files os name size dirpath rest)) ->
                  exists f0 n0, In (f0, n0) ((f, n) :: rest) /\
                                p = os_path_join dirpath f0 /\
                                name_rejects os name f0 = false /\ size_passes size n0).
  { intros H. destruct (IH H) as [f0 [n0 [Hin Hp]]]. exists f0, n0.
    split; [now right | exact Hp]. }
  destruct (name_rejects os name f) eqn:E; [exact Hrest|].
  destruct (falsy size) eqn:Hsize.
  - destruct (yield_files os name size dirpath rest) as [ys r]. simpl in *.
    intros [<- | H]; [|now apply Hrest].
    exists f, n. split; [now left|]. split; [reflexivity|]. split; [exact E|].
    left. exact Hsize.
  - destruct (getsize n) as [sz| |] eqn:Hsz; simpl; try contradiction.
    destruct (match_size sz size) as [[]| |] eqn:Hm; simpl;
      try contradiction; try exact Hrest.
    destruct (yield_files os name size dirpath rest) as [ys r]. simpl in *.
    intros [<- | H]; [|now apply Hrest].
    exists f, n. split; [now left|]. split; [reflexivity|]. split; [exact E|].
    right. exists sz. now split.
Qed.

Lemma descend_sound (dirpath : string) (entries : list (string * node)) (p : string) :
  In p (fst (descend os name type_ size dirpath entries)) ->
  exists d g es,
    In (d, Dir g es) entries /\
    In p (fst (traverse_dir os name type_ size (os_path_join dirpath d) (Dir g es))).
Proof.
  induction entries as [|[d child] rest IH]; simpl; [contradiction|].
  assert (Hrest : In p (fst (descend os name type_ size dirpath rest)) ->
                  exists d0 g es,
                    In (d0, Dir g es) ((d, child) :: rest) /\
                    In p (fst (traverse_dir os name type_ size
                                 (os_path_join dirpath d0) (Dir g es)))).
  { intros H. destruct (IH H) as [d0 [g [es [Hin Hp]]]]. exists d0, g, es.
    split; [now right | exact Hp]. }
  destruct child as [g|g es|g]; try exact Hrest.
  destruct (traverse_dir os name type_ size (os_path_join dirpath d) (Dir g es))
    as [ys r] eqn:E.
  assert (Hhere : In p ys ->
                  exists d0 g0 es0,
                    In (d0, Dir g0 es0) ((d, Dir g es) :: rest) /\
                    In p (fst (traverse_dir os name type_ size
                                 (os_path_join dirpath d0) (Dir g0 es0)))).
  { intros H. exists d, g, es. split; [now left | now rewrite E]. }
  destruct r as [[]| |]; simpl; try exact Hhere.
  destruct (descend os name type_ size dirpath rest) as [ys' r']. simpl in *.
  intros H. apply in_app_or in H as [H | H]; [now apply Hhere | now apply Hrest].
Qed.

(** What an entry must be for [traverse] to yield it. *)
Definition passes (d : string) (n : node) : Prop :=
  name_rejects os name d = false /\
  if is_dir n then type_in type_ "d" = true
  else type_in type_ "f" = true /\ size_passes size n.

Lemma traverse_dir_sound (t : node) :
  forall root p,
    In p (fst (traverse_dir os name type_ size root t)) ->
    exists names d n,
      below t names d n /\ p = path_below root names d /\ passes d n.
Proof.
  induction t as [g|g entries IH|g] using pfind_node_induction; intros root p;
    try (simpl; contradiction).
  rewrite traverse_dir_Dir. cbv zeta.
  assert (Hds : In p (if type_in type_ "d"
                      then yield_dirs os name root (dir_entries entries) else []) ->
                exists names d n,
                  below (Dir g entries) names d n /\ p = path_below root names d /\
                  passes d n).
  { destruct (type_in type_ "d") eqn:Ht; [|contradiction].
    intros H. apply yield_dirs_sound in H as [d [n [Hin [Hp Hname]]]].
    apply filter_In in Hin as [Hin Hdir]. simpl in Hdir.
    exists [], d, n. split; [now constructor|]. split; [exact Hp|].
    split; [exact Hname|]. now rewrite Hdir. }
  assert (Hfs : In p (fst (if type_in type_ "f"
                           then yield_files os name size root (file_entries entries)
                           else ([], Ok tt))) ->
                exists names d n,
                  below (Dir g entries) names d n /\ p = path_below root names d /\
                  passes d n).
  { destruct (type_in type_ "f") eqn:Ht; [|contradiction].
    intros H. apply yield_files_sound in H as [f [n [Hin [Hp [Hname Hsz]]]]].
    apply filter_In in Hin as [Hin Hdir]. simpl in Hdir.
    apply negb_true_iff in Hdir.
    exists [], f, n. split; [now constructor|]. split; [exact Hp|].
    split; [exact Hname|]. rewrite Hdir. now split. }
  assert (Hys : In p (fst (descend os name type_ size root entries)) ->
                exists names d n,
                  below (Dir g entries) names d n /\ p = path_below root names d /\
                  passes d n).
  { intros H. apply descend_sound in H as [d [g' [es [Hin Hp]]]].
    rewrite Forall_forall in IH. specialize (IH (d, Dir g' es) Hin).
    destruct (IH (os_path_join root d) p Hp) as [names [d' [n [Hb [Hpath Hpass]]]]].
    exists (d :: names), d', n. split; [|split; [exact Hpath | exact Hpass]].
    now apply (below_there g entries d (Dir g' es)). }
  destruct (if type_in type_ "f"
            then yield_files os name size root (file_entries entries)
            else ([], Ok tt)) as [fs r].
  simpl in Hfs.
  destruct r as [[]| |].
  - destruct (descend os name type_ size root entries) as [ys r']. simpl in *.
    intros H. apply in_app_or in H as [H | H]; [now apply Hds|].
    apply in_app_or in H as [H | H]; [now apply Hfs | now apply Hys].
  - simpl. intros H. apply in_app_or in H as [H | H]; [now apply Hds | now apply Hfs].
  - simpl. intros H. apply in_app_or in H as [H | H]; [now apply Hds | now apply Hfs].
Qed.

Lemma yield_files_In (dirpath : string) (files : list (string * node))
    (f : string) (n : node) :
  In (f, n) files ->
  name_rejects os name f = false ->
  size_passes size n ->
  snd (yield_files os name size dirpath files) = Ok tt ->
  In (os_path_join dirpath f) (fst (yield_files os name size dirpath files)).
Proof.
  intros Hin Hname Hsz.
  induction files as [|[f' n'] rest IH]; simpl; [contradiction|].
  destruct Hin as [[= -> ->] | Hin].
  - rewrite Hname. destruct (falsy size) eqn:Hf.
    + destruct (yield_files os name size dirpath rest) as [ys r]. simpl. now left.
    + destruct Hsz as [Hsz | [sz [Hg Hm]]]; [congruence|].
      rewrite Hg. simpl. rewrite Hm.
      destruct (yield_files os name size dirpath rest) as [ys r]. simpl. now left.
  - specialize (IH Hin).
    destruct (name_rejects os name f'); [exact IH|].
    destruct (falsy size).
    + destruct (yield_files os name size dirpath rest) as [ys r]. simpl in *.
      intros H. right. now apply IH.
    + destruct (bind (getsize n') (fun sz => match_size sz size)) as [[]| |];
        simpl; try discriminate; try exact IH.
      destruct (yield_files os name size dirpath rest) as [ys r]. simpl in *.
      intros H. right. now apply IH.
Qed.

Lemma below_file_yielded (t : node) (names : list string) (f : string) (n : node) :
  below t names f n ->
  forall root,
    type_in type_ "f" = true ->
    snd (traverse_dir os name type_ size root t) = Ok tt ->
    is_dir n = false ->
    name_rejects os name f = false ->
    size_passes size n ->
    In (path_below root names f) (fst (traverse_dir os name type_ size root t)).
Proof.
  induction 1 as [g entries f n Hin | g entries nm child names f n Hin Hbelow IH];
    intros root Htype Hok Hdir Hname Hsz; rewrite traverse_dir_Dir in Hok |- *;
    cbv zeta in Hok |- *; rewrite Htype in Hok |- *.
  - pose proof (yield_files_In root (file_entries entries) f n) as Hy.
    destruct (yield_files os name size root (file_entries entries)) as [fs r].
    destruct r as [[]| |]; try discriminate.
    assert (Hfs : In (path_below root [] f) fs).
    { apply Hy; try assumption; [|reflexivity].
      apply filter_In. split; [exact Hin | simpl; now rewrite Hdir]. }
    destruct (descend os name type_ size root entries) as [ys r'].
    apply in_or_app. right. apply in_or_app. now left.
  - destruct (yield_files os name size root (file_entries entries)) as [fs r].
    destruct r as [[]| |]; try discriminate.
    destruct (descend os name type_ size root entries) as [ys r'] eqn:E.
    simpl in Hok. subst r'.
    destruct child as [g'|g' es'|g']; try (inversion Hbelow; fail).
    destruct (descend_child os name type_ size root entries nm g' es') as [Hc Hincl];
      [now rewrite E | exact Hin |].
    rewrite E in Hincl. simpl in Hincl.
    apply in_or_app. right. apply in_or_app. right. apply Hincl.
    apply (IH (os_path_join root nm) Htype Hc Hdir Hname Hsz).
Qed.

End PfindSound.

(** X14.  [traverse] yields nothing but entries that pass its filters:
    every path it yields, also before an exception ends it, is the
    path of an entry found below the root whose name the name filter
    does not reject; if the entry is a directory the type filter is
    absent or ["d"], and otherwise the type filter is absent or ["f"]
    and the size filter is absent or true of the entry's size.  So with
    type ["f"] no directory is yielded, with type ["d"] nothing but
    directories, and with any other type nothing at all. *)
Theorem traverse_yields_only_matches (os : OS) (fs : string -> option Pfind.node)
    (root : string) (name type_ size : option string) (p : string) :
  In p (fst (Pfind.traverse os fs root name type_ size)) ->
  exists t names d n,
    fs root = Some t /\ below t names d n /\ p = path_below root names d /\
    Pfind.name_rejects os name d = false /\
    if Pfind.is_dir n then Pfind.type_in type_ "d" = true
    else Pfind.type_in type_ "f" = true /\ size_passes size n.
Proof.
  unfold Pfind.traverse. destruct (fs root) as [t|]; [|contradiction].
  intros H. apply traverse_dir_sound in H as [names [d [n [Hb [Hp Hpass]]]]].
  exists t, names, d, n. split; [reflexivity|]. split; [exact Hb|].
  split; [exact Hp | exact Hpass].
Qed.

Lemma traverse_yields_only_matches_witness :
  exists t names d n,
    pfind_fs "." = Some t /\ below t names d n /\
    "./dir1/file2.log" = path_below "." names d /\
    Pfind.name_rejects (os_at 0) None d = false /\
    if Pfind.is_dir n then Pfind.type_in (Some "f") "d" = true
    else Pfind.type_in (Some "f") "f" = true /\ size_passes (Some "+1") n.
Proof.
  exact (traverse_yields_only_matches (os_at 0) pfind_fs "." None (Some "f")
           (Some "+1") "./dir1/file2.log" ltac:(simpl; right; left; reflexivity)).
Defined.

(** X15.  With the type filter absent or ["f"], a traversal that ends
    normally has yielded every entry below the root that is not a
    directory, whose name the name filter does not reject, and that
    passes the size filter (there is none, or the entry's size can be
    read and [match_size] is true of it). *)
Theorem traverse_yields_every_file (os : OS) (fs : string -> option Pfind.node)
    (root : string) (name type_ size : option string) (t : Pfind.node)
    (names : list string) (f : string) (n : Pfind.node) :
  fs root = Some t ->
  type_ = None \/ type_ = Some "f" ->
  snd (Pfind.traverse os fs root name type_ size) = Ok tt ->
  below t names f n ->
  Pfind.is_dir n = false ->
  Pfind.name_rejects os name f = false ->
  size_passes size n ->
  In (path_below root names f) (fst (Pfind.traverse os fs root name type_ size)).
Proof.
  intros Hfs Htype. unfold Pfind.traverse. rewrite Hfs.
  intros Hok Hbelow Hdir Hname Hsz.
  apply (below_file_yielded os name type_ size t names f n Hbelow root);
    try assumption.
  destruct Htype as [-> | ->]; reflexivity.
Qed.

Lemma traverse_yields_every_file_witness :
  In "./dir1/file2.log"
     (fst (Pfind.traverse (os_at 0) pfind_fs "." None None (Some "+1"))).
Proof.
  refine (traverse_yields_every_file (os_at 0) pfind_fs "." None None (Some "+1")
            pfind_scenario ["dir1"] "file2.log" (Pfind.File (Some 5))
            eq_refl (or_introl eq_refl) eq_refl _ eq_refl eq_refl _).
  - apply (below_there _ _ "dir1"
             (Pfind.Dir (Some 4096)
                [("file2.log", Pfind.File (Some 5));
                 ("sub", Pfind.Dir (Some 4096) [])])).
    + simpl. right. left. reflexivity.
    + apply below_here. simpl. left. reflexivity.
  - right. exists 5. split; reflexivity.
Defined.

(** ** Defaults and thresholds *)

(** X16.  When the command line names no path (it is empty or starts
    with an argument that begins with a dash), [main] walks the current
    directory: the run is the one of the same command line with [.] put
    in front. *)
Theorem default_path_is_current_directory (os : OS)
    (fs : string -> option Pyfind.node) (argv : list string) :
  fst (Pyfind.split_paths argv) = [] ->
  Pyfind.main os fs argv = Pyfind.main os fs ("." :: argv).
Proof.
  intros H. unfold Pyfind.main.
  change (Pyfind.split_paths ("." :: argv))
    with (let '(paths, expr_args) := Pyfind.split_paths argv in
          ("." :: paths, expr_args)).
  destruct (Pyfind.split_paths argv) as [paths0 expr_args].
  simpl in H. subst paths0. reflexivity.
Qed.

Lemma default_path_is_current_directory_witness :
  Pyfind.main (os_at 0) scenario_fs ["-type"; "f"] =
  Pyfind.main (os_at 0) scenario_fs ["."; "-type"; "f"].
Proof.
  exact (default_path_is_current_directory (os_at 0) scenario_fs ["-type"; "f"]
           eq_refl).
Defined.

Lemma div_gt_iff (d n : Z) : d / 86400 > n <-> (n + 1) * 86400 <= d.
Proof.
  pose proof (Z.div_mod d 86400 ltac:(lia)).
  pose proof (Z.mod_pos_bound d 86400 ltac:(lia)).
  split; nia.
Qed.

Lemma div_lt_iff (d n : Z) : d / 86400 < n <-> d < n * 86400.
Proof.
  pose proof (Z.div_mod d 86400 ltac:(lia)).
  pose proof (Z.mod_pos_bound d 86400 ltac:(lia)).
  split; nia.
Qed.

Lemma div_eq_iff (d n : Z) : d / 86400 = n <-> n * 86400 <= d < (n + 1) * 86400.
Proof.
  pose proof (Z.div_mod d 86400 ltac:(lia)).
  pose proof (Z.mod_pos_bound d 86400 ltac:(lia)).
  split; nia.
Qed.

Lemma decides_iff (r : outcome bool) (P Q : Prop) :
  (P <-> Q) -> decides r P -> decides r Q.
Proof.
  intros HPQ [b [Hr Hb]]. exists b. split; [exact Hr | now rewrite Hb].
Qed.

(** X17.  The age tests in seconds.  With [d] the seconds between the
    time stamp and the clock reading of the evaluation, and [N] a run
    of digits: [-mtime +N] holds exactly when [d >= (N+1) * 86400],
    [-mtime -N] exactly when [d < N * 86400], and [-mtime N] exactly
    when [N * 86400 <= d < (N+1) * 86400]; the same for [-atime] and
    [-ctime] on their time stamps.  A stamp in the future ([d < 0])
    counts as a negative age, so [-mtime 0] does not hold of it. *)
Theorem age_tests_in_seconds (os : OS) (N : string) (path : string)
    (st : stat_result) (k : nat) :
  isdigit N = true ->
  let n := decimal N in
  let after (stamp : Z) := time_time os k - stamp in
  (decides (fst (Pyfind.eval os (Pyfind.Mtime ("+" ++ N)) path st k))
           ((n + 1) * 86400 <= after (st_mtime st)) /\
   decides (fst (Pyfind.eval os (Pyfind.Mtime ("-" ++ N)) path st k))
           (after (st_mtime st) < n * 86400) /\
   decides (fst (Pyfind.eval os (Pyfind.Mtime N) path st k))
           (n * 86400 <= after (st_mtime st) < (n + 1) * 86400)) /\
  (decides (fst (Pyfind.eval os (Pyfind.Atime ("+" ++ N)) path st k))
           ((n + 1) * 86400 <= after (st_atime st)) /\
   decides (fst (Pyfind.eval os (Pyfind.Atime ("-" ++ N)) path st k))
           (after (st_atime st) < n * 86400) /\
   decides (fst (Pyfind.eval os (Pyfind.Atime N) path st k))
           (n * 86400 <= after (st_atime st) < (n + 1) * 86400)) /\
  (decides (fst (Pyfind.eval os (Pyfind.Ctime ("+" ++ N)) path st k))
           ((n + 1) * 86400 <= after (st_ctime st)) /\
   decides (fst (Pyfind.eval os (Pyfind.Ctime ("-" ++ N)) path st k))
           (after (st_ctime st) < n * 86400) /\
   decides (fst (Pyfind.eval os (Pyfind.Ctime N) path st k))
           (n * 86400 <= after (st_ctime st) < (n + 1) * 86400)).
Proof.
  intros H n after.
  assert (Hage : forall stamp,
             decides (fst (Pyfind.age_test os ("+" ++ N) stamp k))
                     ((n + 1) * 86400 <= after stamp) /\
             decides (fst (Pyfind.age_test os ("-" ++ N) stamp k))
                     (after stamp < n * 86400) /\
             decides (fst (Pyfind.age_test os N stamp k))
                     (n * 86400 <= after stamp < (n + 1) * 86400)).
  { intros stamp.
    pose proof (age_test_convention os greater_than N stamp k H) as E1.
    pose proof (age_test_convention os less_than N stamp k H) as E2.
    pose proof (age_test_convention os equal_to N stamp k H) as E3.
    cbn [spec_string] in E1, E2, E3. rewrite E1, E2, E3.
    cbn [fst]. unfold age_days. repeat split.
    - apply (decides_iff _ _ _ (div_gt_iff (after stamp) n)).
      exact (n_compare_convention greater_than N _ H).
    - apply (decides_iff _ _ _ (div_lt_iff (after stamp) n)).
      exact (n_compare_convention less_than N _ H).
    - apply (decides_iff _ _ _ (div_eq_iff (after stamp) n)).
      exact (n_compare_convention equal_to N _ H). }
  repeat split; apply Hage.
Qed.

Lemma age_tests_in_seconds_witness :
  decides (fst (Pyfind.eval (os_at 172800) (Pyfind.Mtime ("+" ++ "1")) "./file1.txt"
                  st_file 0%nat))
          ((decimal "1" + 1) * 86400 <= 172800 - 0).
Proof.
  exact (proj1 (proj1 (age_tests_in_seconds (os_at 172800) "1" "./file1.txt"
                         st_file 0%nat eq_refl))).
Defined.
